(** * cc2_xfbin_blender: the XFBIN importer and exporter, embedded in Rocq

  The development follows the Python sources:
  - [blender/common/coordinate_converter.py]  ([Module coordinate_converter]),
  - [blender/importer.py], [XfbinImporter.make_armature]  ([Module importer]),
  - [blender/exporter.py], [XfbinExporter]  ([Section exporter]).

  Python floats are IEEE 754 binary64 numbers; they are modelled with the
  executable specification of [SpecFloat].  Blender's [mathutils] matrices
  (single precision C code, outside the repository) are idealised over the
  real numbers; the scaling of a [mathutils.Vector] by a number is modelled
  in binary32, again with [SpecFloat]. *)

From Stdlib Require Import ZArith Reals Lra.
From Stdlib.Strings Require Import Byte.
From Stdlib Require Import SpecFloat.
From stdpp Require Import base option gmap list strings sorting.

Set Warnings "-register-all,-clear-no-such-hyp,-notation-for-abbreviation".

(** ** Python numbers *)

Module py.

(** A Python [float] is a binary64 number. *)
Definition float : Type := spec_float.

Definition prec : Z := 53.
Definition emax : Z := 1024.

Definition fadd : float -> float -> float := SFadd prec emax.
Definition fsub : float -> float -> float := SFsub prec emax.
Definition fmul : float -> float -> float := SFmul prec emax.
Definition fdiv : float -> float -> float := SFdiv prec emax.
Definition flt : float -> float -> bool := SFltb.

(** [float(n)] for an integer [n]. *)
Definition of_int (n : Z) : float := binary_normalize prec emax n 0 false.

(** The literals [0.0] and [1.0]. *)
Definition f0 : float := S754_zero false.
Definition f1 : float := S754_finite false 4503599627370496 (-52).

(** [k * 2 ** e], correctly rounded (exact whenever it is representable). *)
Definition dyadic (k e : Z) : float := binary_normalize prec emax k e false.


(** A number that is either an [int] or a [float]: the exporter writes both
    into the same tuple positions. *)
Inductive num : Type :=
  | Int (z : Z)
  | Float (f : float).

(** [sorted(l, key=key)]: a stable sort that compares keys with [<].  An
    item is put in front of the first later item whose key is not smaller,
    so items with equal keys keep their order. *)
Section sorted.
Context {A : Type} (key : A -> float).

Fixpoint insert_by_key (x : A) (l : list A) : list A :=
  match l with
  | [] => [x]
  | y :: l' => if flt (key y) (key x) then y :: insert_by_key x l'
               else x :: y :: l'
  end.

Definition sorted (l : list A) : list A := foldr insert_by_key [] l.
End sorted.

(** [sum(l)] : starts from the integer [0] and adds from the left, as CPython
    does up to version 3.11 (the interpreters Blender ships for this add-on);
    an [int] plus a [float] is a [float]. *)
Definition num_add (a : num) (b : float) : num :=
  match a with
  | Int z => Float (fadd (of_int z) b)
  | Float f => Float (fadd f b)
  end.

Definition sum (l : list float) : num := foldl num_add (Int 0) l.

(** [x > 0.0] *)
Definition num_gt_zero (x : num) : bool :=
  match x with
  | Int z => bool_decide (0 < z)%Z
  | Float f => flt f0 f
  end.

(** [w / x] for a float [w] *)
Definition div_by (x : num) (w : float) : float :=
  match x with
  | Int z => fdiv w (of_int z)
  | Float f => fdiv w f
  end.

End py.

(** ** blender/common/coordinate_converter.py *)

Module coordinate_converter.
Import py.

(** [def uv_to_blender(uv): return (uv[0], 1.0 - uv[1])] *)
Definition uv_to_blender (uv : float * float) : float * float :=
  (uv.1, fsub f1 uv.2).

(** [def uv_from_blender(uv): return (uv[0], 1.0 - uv[1])] *)
Definition uv_from_blender (uv : float * float) : float * float :=
  (uv.1, fsub f1 uv.2).

(** The functions below go through [mathutils.Vector] and [math]; their
    arithmetic is idealised over the reals. *)
Definition vec3 : Type := R * R * R.

Definition vec3_map (f : R -> R) (v : vec3) : vec3 :=
  let '(x, y, z) := v in (f x, f y, f z).

(** [def pos_cm_to_m(pos): return Vector(pos) * 0.01] *)
Definition pos_cm_to_m (pos : vec3) : vec3 := vec3_map (fun x => x * / 100)%R pos.

(** [def pos_m_to_cm(pos): return (pos * 100)[:]] *)
Definition pos_m_to_cm (pos : vec3) : vec3 := vec3_map (fun x => x * 100)%R pos.

(** [math.radians] *)
Definition radians (x : R) : R := (x * (PI / 180))%R.

(** [def rot_to_blender(rot): return Euler(tuple(map(math.radians, rot)), 'ZYX')]:
    the three angles of the Euler value, in radians. *)
Definition rot_to_blender (rot : vec3) : vec3 := vec3_map radians rot.

End coordinate_converter.

(** ** blender/importer.py: [XfbinImporter.make_armature] *)

Module importer.
Import coordinate_converter.

(** *** [mathutils.Matrix]: lists of rows *)

Definition matrix : Type := list (list R).

Definition dot (u v : list R) : R := foldr Rplus 0%R (zip_with Rmult u v).

Definition column (j : nat) (m : matrix) : list R := map (fun r => nth j r 0%R) m.

(** [a @ b] on 4x4 matrices *)
Definition matmul (a b : matrix) : matrix :=
  map (fun r => map (fun j => dot r (column j b)) (seq 0 4)) a.

(** [Matrix.Identity(4)] *)
Definition Identity4 : matrix :=
  [[1; 0; 0; 0]; [0; 1; 0; 0]; [0; 0; 1; 0]; [0; 0; 0; 1]]%R.

(** [Matrix.Translation(pos)] *)
Definition Translation (pos : vec3) : matrix :=
  let '(x, y, z) := pos in
  [[1; 0; 0; x]; [0; 1; 0; y]; [0; 0; 1; z]; [0; 0; 0; 1]]%R.

(** [Matrix.Diagonal(sca).to_4x4()] *)
Definition Diagonal4 (sca : vec3) : matrix :=
  let '(x, y, z) := sca in
  [[x; 0; 0; 0]; [0; y; 0; 0]; [0; 0; z; 0]; [0; 0; 0; 1]]%R.

(** [m.to_4x4()] for a 3x3 matrix [m] *)
Definition to_4x4 (m : matrix) : matrix :=
  map (fun r => r ++ [0%R]) m ++ [[0; 0; 0; 1]%R].

(** The rotations about the three axes, and the matrix of an Euler value of
    order ['ZYX'] as [mathutils] composes it (about Z first, then Y, then X,
    each about the fixed axes). *)
Definition rot_x (a : R) : matrix :=
  [[1; 0; 0]; [0; cos a; - sin a]; [0; sin a; cos a]]%R.
Definition rot_y (a : R) : matrix :=
  [[cos a; 0; sin a]; [0; 1; 0]; [- sin a; 0; cos a]]%R.
Definition rot_z (a : R) : matrix :=
  [[cos a; - sin a; 0]; [sin a; cos a; 0]; [0; 0; 1]]%R.

Definition matmul3 (a b : matrix) : matrix :=
  map (fun r => map (fun j => dot r (column j b)) (seq 0 3)) a.

Definition euler_zyx_to_matrix (e : vec3) : matrix :=
  let '(x, y, z) := e in matmul3 (rot_x x) (matmul3 (rot_y y) (rot_z z)).

(** *** The stored forest of coordinate nodes

    A [CoordNode] owns its children; [node.parent] is the node one level up,
    which the traversal passes along as the parent's name. *)
Inductive CoordNode : Type :=
  mkCoordNode (name : string) (position rotation scale : vec3)
              (unkFloat : R) (unkShort : Z) (children : list CoordNode).

Definition node_name (n : CoordNode) : string :=
  let '(mkCoordNode name _ _ _ _ _ _) := n in name.

(** The names of a node and of everything below it, parents first. *)
Fixpoint node_names (n : CoordNode) : list string :=
  let '(mkCoordNode name _ _ _ _ _ children) := n in
  name :: flat_map node_names children.

(** An edit bone as [make_bone] leaves it. *)
Record EditBone : Type := mkEditBone {
  bone_name : string;
  bone_matrix : matrix;
  bone_parent : option string;
  bone_scale_signs : Z * Z * Z;
  bone_unk_float : R;
  bone_unk_short : Z;
}.

Record armature_state : Type := mkArmatureState {
  bone_matrices : gmap string matrix;   (* the dict [bone_matrices] *)
  edit_bones : list EditBone;           (* [armature.edit_bones], in creation order *)
}.

(** [-1 if x < 0 else 1] *)
Definition sign_of (x : R) : Z := if Rlt_dec x 0 then (-1)%Z else 1%Z.

Definition scale_signs_of (sca : vec3) : Z * Z * Z :=
  let '(x, y, z) := sca in (sign_of x, sign_of y, sign_of z).

(** [Matrix.Translation(pos) @ rot.to_matrix().to_4x4() @
    Matrix.Diagonal(sca).to_4x4()], with [pos] and [rot] the converted
    position and rotation of the node. *)
Section make_armature.
(** [Euler.to_matrix] of [mathutils] *)
Variable to_matrix : vec3 -> matrix.

Definition compose (position rotation sca : vec3) : matrix :=
  let pos := pos_cm_to_m position in
  let rot := rot_to_blender rotation in
  matmul (matmul (Translation pos) (to_4x4 (to_matrix rot))) (Diagonal4 sca).

(** [this_bone_matrix]: [sca] is the absolute value of the stored scale. *)
Definition this_bone_matrix (parent_matrix : matrix) (position rotation scale : vec3) : matrix :=
  let sca := vec3_map Rabs scale in
  matmul parent_matrix (compose position rotation sca).

(** [def make_bone(node)].  [None] is the [KeyError] of
    [bone_matrices[node.parent.name]]. *)
Fixpoint make_bone (parent : option string) (node : CoordNode)
    (st : armature_state) : option armature_state :=
  let '(mkCoordNode name position rotation scale unkFloat unkShort children) := node in
  parent_matrix ← match parent with
                  | Some p => bone_matrices st !! p
                  | None => Some Identity4
                  end;
  let m := this_bone_matrix parent_matrix position rotation scale in
  let bone := mkEditBone name m parent (scale_signs_of scale) unkFloat unkShort in
  let st' := mkArmatureState (<[name := m]> (bone_matrices st)) (edit_bones st ++ [bone]) in
  (fix make_children (cs : list CoordNode) (st : armature_state) : option armature_state :=
     match cs with
     | [] => Some st
     | c :: cs' => st1 ← make_bone (Some name) c st; make_children cs' st1
     end) children st'.

(** [for child in node.children: make_bone(child)], for the children of the
    node [name]; and [for root in clump.root_nodes: make_bone(root)]. *)
Fixpoint make_bones (parent : option string) (nodes : list CoordNode)
    (st : armature_state) : option armature_state :=
  match nodes with
  | [] => Some st
  | n :: nodes' => st1 ← make_bone parent n st; make_bones parent nodes' st1
  end.

Definition make_armature (root_nodes : list CoordNode) : option armature_state :=
  make_bones None root_nodes (mkArmatureState ∅ []).

(** The bones a forest should give, written without the dict: the matrix of
    a bone is the matrix of its parent bone (the identity for a root) times
    [local] of the node. *)
Variable local : vec3 -> vec3 -> vec3 -> matrix.

Fixpoint world_bones (parent : option string) (parent_world : matrix)
    (node : CoordNode) : list EditBone :=
  let '(mkCoordNode name position rotation scale unkFloat unkShort children) := node in
  let w := matmul parent_world (local position rotation scale) in
  mkEditBone name w parent (scale_signs_of scale) unkFloat unkShort
    :: flat_map (world_bones (Some name) w) children.

End make_armature.

(** The two readings of the scale: the absolute value of the stored scale,
    which [make_bone] composes, and the absolute value with the recorded
    signs applied again. *)
Definition local_abs (to_matrix : vec3 -> matrix) (position rotation scale : vec3) : matrix :=
  compose to_matrix position rotation (vec3_map Rabs scale).

Definition local_signed (to_matrix : vec3 -> matrix) (position rotation scale : vec3) : matrix :=
  compose to_matrix position rotation (vec3_map (fun x => IZR (sign_of x) * Rabs x)%R scale).

(** The entry in row [i] and column [j]. *)
Definition entry (m : matrix) (i j : nat) : R := nth j (nth i m []) 0%R.

End importer.

(** ** blender/exporter.py: [XfbinExporter] *)

Module exporter.
Import py coordinate_converter.

(** The messages the exporter prints, one constructor per [print] call. *)
Inductive diagnostic : Type :=
  | NutNotValid (texture_name : string)
  | MeshNoValidFaces (mesh_name : string)
  | MeshTooManyVertices (mesh_name : string) (count limit : nat)
  | MeshTooManyFaces (mesh_name : string) (count limit : nat)
  | MeshNoMaterial (mesh_name : string)
  | NudNoMeshes (empty_name : string).

(** [b'NTP3'] *)
Definition NTP3 : list byte := [x4e; x54; x50; x33].

#[export] Instance byte_eq_dec : EqDecision byte := Byte.byte_eq_dec.

(** The sanity check on the bytes of a NUT file:
    [len(chunk.nut_data) > 4 and chunk.nut_data[:4] == b'NTP3'] *)
Definition nut_data_valid (nut_data : list byte) : bool :=
  bool_decide (4 < length nut_data) && bool_decide (take 4 nut_data = NTP3).

(** [name[:-4] if name.endswith(' [C]') else name] *)
Definition strip_clump_suffix (name : string) : string :=
  let n := String.length name in
  if bool_decide (4 ≤ n) && bool_decide (String.substring (n - 4) 4 name = " [C]"%string)
  then String.substring 0 (n - 4) name else name.

(** [{name: i for i, name in enumerate(names)}]: a later entry replaces an
    earlier one with the same name. *)
Definition index_dict (names : list string) : gmap string nat :=
  foldl (fun d ni => <[ni.2 := ni.1]> d) ∅ (imap (fun i n => (i, n)) names).

(** The first component of a [b_weights] item: a vertex group name, or the
    integer of a padding item. *)
Inductive bone_key : Type :=
  | KeyName (name : string)
  | KeyInt (z : Z).

(** [coord_indices_dict.get(bw[0], 0)] *)
Definition get_index (coord_indices_dict : gmap string nat) (k : bone_key) : nat :=
  match k with
  | KeyName name => default 0 (coord_indices_dict !! name)
  | KeyInt _ => 0
  end.

(** The bone indices and weights of one vertex, from the items
    [(v_groups[b].name, w)] of its deform layer entry (lines 497-511). *)
Definition b_weights_of (coord_indices_dict : gmap string nat)
    (items : list (string * float)) : list (bone_key * float) :=
  let b_weights :=
    (fun i => (KeyName i.1, i.2)) <$>
      filter (fun i => is_Some (coord_indices_dict !! i.1))
             (sorted (fun i => fsub (of_int 1) i.2) items) in
  if bool_decide (4 < length b_weights) then take 4 b_weights
  else if bool_decide (length b_weights < 4)
       then b_weights ++ replicate (4 - length b_weights) (KeyInt 0, f0)
       else b_weights.

Definition bone_ids_and_weights (coord_indices_dict : gmap string nat)
    (items : list (string * float)) : list nat * list num :=
  let b_weights := b_weights_of coord_indices_dict items in
  let weight_sum := sum (snd <$> b_weights) in
  if num_gt_zero weight_sum
  then ((fun bw => get_index coord_indices_dict bw.1) <$> b_weights,
        (fun bw => Float (div_by weight_sum bw.2)) <$> b_weights)
  else (replicate 4 0, replicate 3 (Int 0) ++ [Int 1]).

(** A method either returns or raises an [Exception] with a message. *)
Inductive result (A : Type) : Type :=
  | Return (a : A)
  | Raise (msg : string).
Arguments Return {A} a.
Arguments Raise {A} msg.

Section exporter.

(** Constants of [NudMesh] in [xfbin_lib]. *)
Variable MAX_VERTICES MAX_FACES : nat.

(** Values the exporter only copies: the converted position, normal,
    tangent, bitangent and colour of a corner ([Geom]), and the property
    groups of the panels ([Props]). *)
Context {Geom Props : Type}.

(** [hex_str_to_int] of [common/helpers.py] *)
Variable hex_str_to_int : string -> Z.

(** *** The scene, as the exporter reads it *)

(** A loop (face corner) [l]: [l.vert.index], the geometry taken from
    [l.vert] and [l], its UVs on the first two UV layers (when the layers
    exist) and the items of [l.vert[deform_layer]] with the group index
    replaced by [v_groups[b].name] (when there is a deform layer). *)
Record Loop : Type := mkLoop {
  vert_index : nat;
  loop_geom : Geom;
  loop_uv1 : option (float * float);
  loop_uv2 : option (float * float);
  loop_deform : option (list (string * float));
}.

Record MeshObject : Type := mkMeshObject {
  mesh_name : string;
  loop_triangles : list (Loop * Loop * Loop);   (* [bm.calc_loop_triangles()] *)
  bm_faces : nat;                               (* [len(bm.faces)] *)
  xfbin_material : string;                      (* [mesh_data.xfbin_material] *)
  mesh_data : Props;
}.

Record Empty : Type := mkEmpty {
  empty_name : string;
  mesh_bone : string;                           (* [nud_data.mesh_bone] *)
  nud_data : Props;
  empty_meshes : list MeshObject;               (* children of type ['MESH'] *)
}.

Inductive Bone : Type :=
  mkBone (name : string) (data : Props) (children : list Bone).

Record ModelGroupData : Type := mkModelGroupData {
  group_flag0 : Z;
  group_flag1 : Z;
  group_unk : string;
  group_models : list string;                   (* [c.value for c in group.models] *)
}.

Record TextureChunkData : Type := mkTextureChunkData {
  tc_include : bool;
  tc_nut_path : string;
  tc_path : string;
  tc_texture_name : string;
}.

Record ClumpData : Type := mkClumpData {
  cd_path : string;
  cd_flags : Props;                             (* field00 and the four flags *)
  cd_materials : list (string * Props);         (* [material_name] and the rest *)
  cd_models : list string;                      (* [c.value for c in clump_data.models] *)
  cd_model_groups : list ModelGroupData;
  cd_texture_chunks : list TextureChunkData;
}.

Record ArmatureObject : Type := mkArmatureObject {
  armature_name : string;
  root_bones : list Bone;                       (* edit bones without a parent *)
  xfbin_clump_data : ClumpData;
  empties : list Empty;                         (* children of type ['EMPTY'] *)
}.

(** *** The chunks built *)

Record NudVertex : Type := mkNudVertex {
  v_geom : Geom;
  v_uv : list (float * float);
  v_bone_ids : list nat;
  v_bone_weights : list num;
}.

Record NudMesh : Type := mkNudMesh {
  vertices : list NudVertex;
  faces : list (nat * nat * nat);
  nm_mesh_data : Props;                         (* formats, face flag, materials *)
}.

Record NuccChunkMaterial : Type := mkMaterial {
  mat_path : string;
  mat_name : string;
  mat_data : Props;
}.

Record NuccChunkModel : Type := mkModel {
  model_path : string;
  model_name : string;
  coord_index : nat;
  material_chunks : list NuccChunkMaterial;
  nud_meshes : list NudMesh;                    (* [chunk.nud.mesh_groups[0].meshes] *)
  model_nud_data : Props;
}.

Record NuccChunkCoord : Type := mkCoord {
  coord_path : string;
  coord_name : string;
  coord_parent : option string;                 (* [coord.node.parent] *)
  coord_bone : Props;                           (* the bone the node is computed from *)
  coord_parent_bone : option Props;             (* and its parent, for [parent_matrix] *)
}.

Record ClumpModelGroup : Type := mkModelGroup {
  g_flag0 : Z;
  g_flag1 : Z;
  g_unk : Z;
  g_model_chunks : list (option NuccChunkModel);
}.

Record NuccChunkTexture : Type := mkTexture {
  tex_path : string;
  tex_name : string;
  nut_data : list byte;
}.

(** The list objects a clump refers to live in a heap: a clump holds the
    addresses of its three lists, so that two clumps can share one list
    object. *)
Definition loc : Type := positive.

Inductive pyobj : Type :=
  | CoordList (l : list NuccChunkCoord)
  | ModelList (l : list (option NuccChunkModel))
  | GroupList (l : list ClumpModelGroup).

Record NuccChunkClump : Type := mkClump {
  clump_path : string;
  clump_name : string;
  clump_flags : Props;
  coord_chunks : loc;
  model_chunks : loc;
  model_groups : loc;
}.

Definition heap : Type := gmap loc pyobj.

Definition coords_at (h : heap) (l : loc) : list NuccChunkCoord :=
  match h !! l with Some (CoordList cs) => cs | _ => [] end.
Definition models_at (h : heap) (l : loc) : list (option NuccChunkModel) :=
  match h !! l with Some (ModelList ms) => ms | _ => [] end.
Definition groups_at (h : heap) (l : loc) : list ClumpModelGroup :=
  match h !! l with Some (GroupList gs) => gs | _ => [] end.

(** *** The container library and the file system *)

Context {Xfbin : Type}.
(** [Xfbin()] *)
Variable Xfbin_new : Xfbin.
(** [read_xfbin(path)]: the container and the list objects of its clumps *)
Variable read_xfbin : string -> Xfbin * heap.
Variable add_chunk_page : Xfbin -> NuccChunkTexture -> Xfbin.
Variable add_clump_page : Xfbin -> NuccChunkClump -> Xfbin.
(** [xfbin.get_chunk_page(clump)], and for a page that was found the result
    of [page[1].get_chunks_by_type(NuccChunkClump)] *)
Variable get_chunk_page : Xfbin -> string -> string -> option (list NuccChunkClump).
(** [os.path.isfile] and the bytes read from a file *)
Variable isfile : string -> bool.
Variable read_bytes : string -> list byte.

Inductive event : Type :=
  | Print (d : diagnostic)
  | AddChunkPage (chunk : NuccChunkTexture)
  | AddClumpPage (clump : NuccChunkClump)
  | WriteXfbin (x : Xfbin) (path : string).

Record Settings : Type := mkSettings {
  inject_to_xfbin : bool;
  export_meshes : bool;
  export_bones : bool;
  export_textures : bool;
  export_specific_meshes : bool;
  meshes_to_export : list (string * bool);
}.

(** The state of an export: [self.xfbin], the heap and what happened so far. *)
Record state : Type := mkState {
  xfbin : Xfbin;
  st_heap : heap;
  events : list event;
}.

Definition M (A : Type) : Type := state -> state * result A.

Definition ret {A} (a : A) : M A := fun s => (s, Return a).
Definition raise {A} (msg : string) : M A := fun s => (s, Raise msg).
Definition bind {A B} (m : M A) (k : A -> M B) : M B :=
  fun s => match m s with
           | (s', Return a) => k a s'
           | (s', Raise msg) => (s', Raise msg)
           end.
Definition emit (e : event) : M unit :=
  fun s => (mkState (xfbin s) (st_heap s) (events s ++ [e]), Return tt).
Definition print_all (ds : list diagnostic) : M unit :=
  fun s => (mkState (xfbin s) (st_heap s) (events s ++ (Print <$> ds)), Return tt).
(** A new list object *)
Definition alloc (o : pyobj) : M loc :=
  fun s => let l := fresh (dom (st_heap s)) in
           (mkState (xfbin s) (<[l := o]> (st_heap s)) (events s), Return l).
Definition get_state : M state := fun s => (s, Return s).
Definition set_xfbin (x : Xfbin) : M unit :=
  fun s => (mkState x (st_heap s) (events s), Return tt).

(** [for x in l: body(x)] *)
Fixpoint for_each {A} (l : list A) (body : A -> M unit) : M unit :=
  match l with
  | [] => ret tt
  | x :: l' => bind (body x) (fun _ => for_each l' body)
  end.

Notation "x <- m ;; k" := (bind m (fun x => k))
  (at level 100, m at next level, right associativity, only parsing).
Notation "m ;;; k" := (bind m (fun _ => k))
  (at level 100, right associativity, only parsing).

(** *** [make_coords] (lines 305-356)

    [make_coord] appends the coord of a bone and then those of its children;
    the position, rotation and scale of the node are computed by [mathutils]
    from the two bones kept in the coord. *)
Fixpoint make_coord (path : string) (coord_parent : option string)
    (parent_bone : option Props) (bone : Bone) : list NuccChunkCoord :=
  let '(mkBone name data children) := bone in
  mkCoord path name coord_parent data parent_bone
    :: flat_map (make_coord path (Some name) (Some data)) children.

Definition make_coords (path : string) (roots : list Bone) : list NuccChunkCoord :=
  flat_map (make_coord path None None) roots.

(** *** [make_models] (lines 358-563) *)

(** The vertex made for the first loop of a surface vertex (lines 466-511). *)
Definition make_vertex (coord_indices_dict : gmap string nat) (l : Loop) : NudVertex :=
  let bw := match loop_deform l with
            | Some items => bone_ids_and_weights coord_indices_dict items
            | None => ([], [])
            end in
  mkNudVertex (loop_geom l)
    ((uv_from_blender <$> option_list (loop_uv1 l))
       ++ (uv_from_blender <$> option_list (loop_uv2 l)))
    bw.1 bw.2.

(** [vertex_indices_dict], [vertices] and [faces] of the mesh being built. *)
Record mesh_builder : Type := mkMeshBuilder {
  vertex_indices_dict : gmap nat nat;
  b_vertices : list NudVertex;
  b_faces : list (nat * nat * nat);
}.

(** The body of [for l in tri_loops] (lines 459-511). *)
Definition add_loop (coord_indices_dict : gmap string nat)
    (b : mesh_builder) (l : Loop) : mesh_builder :=
  if decide (is_Some (vertex_indices_dict b !! vert_index l)) then b
  else mkMeshBuilder
         (<[vert_index l := size (vertex_indices_dict b)]> (vertex_indices_dict b))
         (b_vertices b ++ [make_vertex coord_indices_dict l])
         (b_faces b).

(** The body of [for tri_loops in bm.calc_loop_triangles()] (lines 458-514). *)
Definition add_triangle (coord_indices_dict : gmap string nat)
    (b : mesh_builder) (tri_loops : Loop * Loop * Loop) : mesh_builder :=
  let '(l0, l1, l2) := tri_loops in
  let b' := foldl (add_loop coord_indices_dict) b [l0; l1; l2] in
  let d := vertex_indices_dict b' in
  mkMeshBuilder d (b_vertices b')
    (b_faces b' ++ [(d !!! vert_index l0, d !!! vert_index l1, d !!! vert_index l2)]).

(** The surface vertices the corners of a list of triangles refer to. *)
Definition corner_indices (tris : list (Loop * Loop * Loop)) : list nat :=
  flat_map (fun t => [vert_index t.1.1; vert_index t.1.2; vert_index t.2]) tris.

Definition build_mesh (coord_indices_dict : gmap string nat)
    (tris : list (Loop * Loop * Loop)) : mesh_builder :=
  foldl (add_triangle coord_indices_dict) (mkMeshBuilder ∅ [] []) tris.

(** What the body of [for mesh_obj in ...] does with one mesh object:
    it prints a message and continues, or it appends a mesh and its
    material chunk (lines 424-551). *)
Inductive mesh_result : Type :=
  | MeshSkipped (d : diagnostic)
  | MeshBuilt (m : NudMesh) (mat : NuccChunkMaterial).

Definition convert_mesh (coord_indices_dict : gmap string nat)
    (xfbin_mats : gmap string NuccChunkMaterial) (mesh_obj : MeshObject) : mesh_result :=
  let b := build_mesh coord_indices_dict (loop_triangles mesh_obj) in
  if bool_decide (length (b_vertices b) < 3) then
    MeshSkipped (MeshNoValidFaces (mesh_name mesh_obj))
  else if bool_decide (MAX_VERTICES < length (b_vertices b)) then
    MeshSkipped (MeshTooManyVertices (mesh_name mesh_obj) (length (b_vertices b)) MAX_VERTICES)
  else if bool_decide (MAX_FACES < length (b_faces b)) then
    MeshSkipped (MeshTooManyFaces (mesh_name mesh_obj) (bm_faces mesh_obj) MAX_FACES)
  else match xfbin_mats !! xfbin_material mesh_obj with
       | None => MeshSkipped (MeshNoMaterial (mesh_name mesh_obj))
       | Some mat => MeshBuilt (mkNudMesh (b_vertices b) (b_faces b) (mesh_data mesh_obj)) mat
       end.

Definition result_mesh (r : mesh_result) : option NudMesh :=
  match r with MeshBuilt m _ => Some m | MeshSkipped _ => None end.
Definition result_material (r : mesh_result) : option NuccChunkMaterial :=
  match r with MeshBuilt _ mat => Some mat | MeshSkipped _ => None end.
Definition result_diagnostic (r : mesh_result) : option diagnostic :=
  match r with MeshBuilt _ _ => None | MeshSkipped d => Some d end.

(** [chunk.material_chunks], [mesh_group.meshes] and the messages printed. *)
Record model_builder : Type := mkModelBuilder {
  mb_material_chunks : list NuccChunkMaterial;
  mb_meshes : list NudMesh;
  mb_log : list diagnostic;
}.

Definition add_mesh_object (coord_indices_dict : gmap string nat)
    (xfbin_mats : gmap string NuccChunkMaterial)
    (mb : model_builder) (mesh_obj : MeshObject) : model_builder :=
  match convert_mesh coord_indices_dict xfbin_mats mesh_obj with
  | MeshSkipped d =>
      mkModelBuilder (mb_material_chunks mb) (mb_meshes mb) (mb_log mb ++ [d])
  | MeshBuilt m mat =>
      mkModelBuilder (mb_material_chunks mb ++ [mat]) (mb_meshes mb ++ [m]) (mb_log mb)
  end.

(** The model chunk of an empty that is exported (lines 384-561): [None]
    when no mesh was appended. *)
Definition make_model (path : string) (coord_indices_dict : gmap string nat)
    (xfbin_mats : gmap string NuccChunkMaterial) (empty : Empty)
    : option NuccChunkModel * list diagnostic :=
  let coord_index := default 0 (coord_indices_dict !! mesh_bone empty) in
  let mb := foldl (add_mesh_object coord_indices_dict xfbin_mats)
                  (mkModelBuilder [] [] []) (empty_meshes empty) in
  match mb_meshes mb with
  | [] => (None, mb_log mb ++ [NudNoMeshes (empty_name empty)])
  | _ => (Some (mkModel path (empty_name empty) coord_index
                        (mb_material_chunks mb) (mb_meshes mb) (nud_data empty)),
          mb_log mb)
  end.

(** [chain(old_clump.model_chunks, *old_clump.model_groups)].  The source
    removes repeated entries with [dict.fromkeys]; that leaves the first
    entry of every name in place, which is all [make_models] looks at. *)
Definition old_clump_all_models (h : heap) (old_clump : NuccChunkClump)
    : list (option NuccChunkModel) :=
  models_at h (model_chunks old_clump)
    ++ flat_map g_model_chunks (groups_at h (model_groups old_clump)).

(** [[c for c in old_clump_all_models if c and c.name == empty.name]] *)
Definition old_models_named (all : list (option NuccChunkModel)) (name : string)
    : list NuccChunkModel :=
  filter (fun c => model_name c = name) (omap (fun c => c) all).

(** What lines 371-382 decide for an empty: it is skipped, an old model is
    looked for, or it is exported. *)
Inductive selection : Type := SelSkip | SelOld | SelExport.

Definition select_empty (settings : Settings) (empty : Empty) : selection :=
  if export_specific_meshes settings then
    match list_find (fun i => i.1 = empty_name empty) (meshes_to_export settings) with
    | None => SelSkip
    | Some (_, (_, false)) => SelOld
    | Some (_, (_, true)) => SelExport
    end
  else SelExport.

(** The body of [for empty in empties] (lines 370-561) on the pair of
    [model_chunks] and the messages printed so far. *)
Definition add_empty (settings : Settings) (h : heap) (path : string)
    (coord_indices_dict : gmap string nat) (old_clump : option NuccChunkClump)
    (xfbin_mats : gmap string NuccChunkMaterial)
    (acc : list NuccChunkModel * list diagnostic) (empty : Empty)
    : list NuccChunkModel * list diagnostic :=
  match select_empty settings empty with
  | SelSkip => acc
  | SelOld =>
      match old_clump with
      | Some old =>
          match old_models_named (old_clump_all_models h old) (empty_name empty) with
          | old_model :: _ => (acc.1 ++ [old_model], acc.2)
          | [] => acc
          end
      | None => acc
      end
  | SelExport =>
      match make_model path coord_indices_dict xfbin_mats empty with
      | (Some chunk, log) => (acc.1 ++ [chunk], acc.2 ++ log)
      | (None, log) => (acc.1, acc.2 ++ log)
      end
  end.

Definition make_models (settings : Settings) (h : heap) (empties : list Empty)
    (path : string) (coords : list NuccChunkCoord) (old_clump : option NuccChunkClump)
    (xfbin_mats : gmap string NuccChunkMaterial)
    : list NuccChunkModel * list diagnostic :=
  let coord_indices_dict := index_dict (coord_name <$> coords) in
  foldl (add_empty settings h path coord_indices_dict old_clump xfbin_mats) ([], []) empties.

(** *** [make_clump] (lines 230-303) *)

(** [{m.name: m for m in models}] *)
Definition model_dict (models : list NuccChunkModel) : gmap string (option NuccChunkModel) :=
  foldl (fun d m => <[model_name m := Some m]> d) ∅ models.

(** [[model_chunks[c] for c in names if c in model_chunks]] *)
Definition resolve_models (model_chunks : gmap string (option NuccChunkModel))
    (names : list string) : list (option NuccChunkModel) :=
  omap (fun c => model_chunks !! c) names.

(** The body of [for group in clump_data.model_groups] (lines 287-296). *)
Definition make_model_group (model_chunks : gmap string (option NuccChunkModel))
    (group : ModelGroupData) : ClumpModelGroup :=
  mkModelGroup (group_flag0 group) (group_flag1 group) (hex_str_to_int (group_unk group))
    (resolve_models model_chunks (group_models group)).

(** Lines 281-296: the [None] entry is added, then the groups are made. *)
Definition make_model_groups (model_chunks : gmap string (option NuccChunkModel))
    (groups : list ModelGroupData) : list ClumpModelGroup :=
  make_model_group (<["None"%string := None]> model_chunks) <$> groups.

(** Lines 254-260 *)
Definition find_old_clump (settings : Settings) (path name : string)
    : M (option NuccChunkClump) :=
  if inject_to_xfbin settings then
    s <- get_state ;;
    match get_chunk_page (xfbin s) path name with
    | None => ret None
    | Some (old_clump :: _) => ret (Some old_clump)
    | Some [] => raise "IndexError: list index out of range"
    end
  else ret None.

Definition make_clump (settings : Settings) (armature_obj : ArmatureObject)
    : M NuccChunkClump :=
  let clump_data := xfbin_clump_data armature_obj in
  let path := cd_path clump_data in
  let name := strip_clump_suffix (armature_name armature_obj) in
  old_clump <- find_old_clump settings path name ;;
  coord_chunks <-
    (if export_bones settings then
       alloc (CoordList (make_coords path (root_bones armature_obj)))
     else match old_clump with
          | Some old => ret (coord_chunks old)
          | None => raise "Cannot export bones."
          end) ;;
  lists <-
    (if export_meshes settings then
       let xfbin_mats :=
         foldl (fun d mat => <[mat.1 := mkMaterial path mat.1 mat.2]> d) ∅
               (cd_materials clump_data) in
       s <- get_state ;;
       let made := make_models settings (st_heap s) (empties armature_obj) path
                     (coords_at (st_heap s) coord_chunks) old_clump xfbin_mats in
       print_all made.2 ;;;
       let model_chunks := model_dict made.1 in
       ms <- alloc (ModelList (resolve_models model_chunks (cd_models clump_data))) ;;
       gs <- alloc (GroupList (make_model_groups model_chunks (cd_model_groups clump_data))) ;;
       ret (ms, gs)
     else match old_clump with
          | Some old => ret (model_chunks old, model_groups old)
          | None => raise "Cannot export meshes."
          end) ;;
  ret (mkClump path name (cd_flags clump_data) coord_chunks lists.1 lists.2).

(** *** [export_collection] (lines 197-228) *)

(** The body of [for texture_chunk in ...] (lines 209-223). *)
Definition export_texture_chunk (texture_chunk : TextureChunkData) : M unit :=
  if tc_include texture_chunk
     && negb (String.eqb (tc_nut_path texture_chunk) "")
     && isfile (tc_nut_path texture_chunk)
  then
    let chunk := mkTexture (tc_path texture_chunk) (tc_texture_name texture_chunk)
                           (read_bytes (tc_nut_path texture_chunk)) in
    if negb (nut_data_valid (nut_data chunk)) then
      emit (Print (NutNotValid (tc_texture_name texture_chunk)))
    else
      s <- get_state ;;
      set_xfbin (add_chunk_page (xfbin s) chunk) ;;;
      emit (AddChunkPage chunk)
  else ret tt.

Definition export_armature (settings : Settings) (armature_obj : ArmatureObject) : M unit :=
  for_each (cd_texture_chunks (xfbin_clump_data armature_obj)) export_texture_chunk ;;;
  clump <- make_clump settings armature_obj ;;
  s <- get_state ;;
  set_xfbin (add_clump_page (xfbin s) clump) ;;;
  emit (AddClumpPage clump).

Definition export_collection (filepath : string) (settings : Settings)
    (armatures : list ArmatureObject) : M unit :=
  settings <-
    (if inject_to_xfbin settings then
       if isfile filepath then
         (fun s => (mkState (read_xfbin filepath).1 (read_xfbin filepath).2 (events s),
                    Return settings))
       else raise "Cannot inject XFBIN - File does not exist"
     else ret (mkSettings false true true true
                          (export_specific_meshes settings) (meshes_to_export settings))) ;;
  for_each armatures (export_armature settings) ;;;
  s <- get_state ;;
  emit (WriteXfbin (xfbin s) filepath).

(** *** What a computation leaves in place

    [preserves R m]: running [m] takes every state to one related to it by
    [R], whether [m] returns or raises. *)
Definition preserves {A} (R : state -> state -> Prop) (m : M A) : Prop :=
  forall s, R s (m s).1.

(** The events so far stay, and the new ones all satisfy [Q]. *)
Definition adds_events (Q : event -> Prop) (s s' : state) : Prop :=
  exists evs, events s' = events s ++ evs ∧ Forall Q evs.

(** The objects of the heap stay as they are. *)
Definition keeps_heap (s s' : state) : Prop :=
  forall l, is_Some (st_heap s !! l) -> st_heap s' !! l = st_heap s !! l.

Definition is_write (e : event) : Prop :=
  match e with WriteXfbin _ _ => True | _ => False end.

(** An event that adds a texture page adds valid NUT data. *)
Definition texture_event_valid (e : event) : Prop :=
  match e with
  | AddChunkPage chunk => nut_data_valid (nut_data chunk) = true
  | _ => True
  end.

(** An export starts from [self.xfbin = Xfbin()] and nothing else. *)
Definition run_export (filepath : string) (settings : Settings)
    (armatures : list ArmatureObject) : state * result unit :=
  export_collection filepath settings armatures (mkState Xfbin_new ∅ []).

End exporter.
End exporter.

(** ** Further functions of the sources *)

(** *** Built-ins *)

Module builtins.

(** [list(dict.fromkeys(l))]: the items of [l] without repetitions, each at
    the place where it comes first. *)
Section fromkeys.
Context {A : Type} `{EqDecision A}.

Fixpoint fromkeys_from (seen : list A) (l : list A) : list A :=
  match l with
  | [] => []
  | x :: l' => if decide (x ∈ seen) then fromkeys_from seen l'
               else x :: fromkeys_from (x :: seen) l'
  end.

Definition fromkeys (l : list A) : list A := fromkeys_from [] l.
End fromkeys.

(** [int(s)] for a string of decimal digits. *)
Definition digit_value (c : Ascii.ascii) : Z := (Z.of_nat (Ascii.nat_of_ascii c) - 48)%Z.

Fixpoint int_from (acc : Z) (s : string) : Z :=
  match s with
  | EmptyString => acc
  | String c s' => int_from (10 * acc + digit_value c)%Z s'
  end.

Definition int (s : string) : Z := int_from 0%Z s.

End builtins.

(** *** blender/panels/nud_panel.py and the rigging flag of a model *)

Module nud_panel.

(** The members of [RiggingFlag], with the values the items of the panel
    give them. *)
Definition UNSKINNED : Z := 1.
Definition SKINNED : Z := 2.
Definition BODY : Z := 4.
Definition BLUR : Z := 16.
Definition SHADOW : Z := 32.

(** [NudPropertyGroup.init_data] (lines 59-77): the identifiers of the set
    items of [rigging_flag] and of [rigging_flag_extra]. *)
Definition add_if (flag member : Z) (item : string) (items : gset string) : gset string :=
  if bool_decide (Z.land flag member ≠ 0%Z) then {[item]} ∪ items else items.

Definition init_rigging_flag (flag : Z) : gset string :=
  add_if flag BODY "4" (add_if flag SKINNED "2" (add_if flag UNSKINNED "1" ∅)).

Definition init_rigging_flag_extra (flag : Z) : gset string :=
  add_if flag SHADOW "32" (add_if flag BLUR "16" ∅).

(** exporter.py, lines 395-396:
    [reduce(lambda x, y: int(x) | int(y),
            nud_data.rigging_flag.union(nud_data.rigging_flag_extra), 0)] *)
Definition export_rigging_flag (rigging_flag rigging_flag_extra : gset string) : Z :=
  set_fold (fun y x => Z.lor x (builtins.int y)) 0%Z (rigging_flag ∪ rigging_flag_extra).

End nud_panel.

(** *** Views of the scene and of the chunks *)

Module views.
Import exporter.

(** importer.py, line 126: [armature_name = f'{clump.name} [C]'] *)
Definition armature_name_of (clump_name : string) : string :=
  (clump_name ++ " [C]")%string.

Section views.
Context {Geom Props : Type}.

(** The names of a bone and of everything below it, parents first. *)
Fixpoint bone_names (bone : Bone (Props:=Props)) : list string :=
  let '(mkBone name _ children) := bone in
  name :: flat_map bone_names children.

(** Every coord that has a parent comes after a coord named like its
    parent: [seen] are the names that came before. *)
Fixpoint parents_first (seen : list string) (coords : list (NuccChunkCoord (Props:=Props)))
    : Prop :=
  match coords with
  | [] => True
  | c :: coords' =>
      match coord_parent c with Some p => p ∈ seen | None => True end
      ∧ parents_first (coord_name c :: seen) coords'
  end.

(** The loops of the triangles, in the order in which they are visited. *)
Definition corner_loops (tris : list (Loop (Geom:=Geom) * Loop * Loop)) : list Loop :=
  flat_map (fun t => [t.1.1; t.1.2; t.2]) tris.

(** The loops at which a surface vertex is visited for the first time, in
    the order of the visit: [seen] are the surface vertices met before. *)
Fixpoint first_loops_from (seen : list nat) (loops : list (Loop (Geom:=Geom)))
    : list Loop :=
  match loops with
  | [] => []
  | l :: loops' =>
      if decide (vert_index l ∈ seen) then first_loops_from seen loops'
      else l :: first_loops_from (vert_index l :: seen) loops'
  end.

Definition first_loops (loops : list (Loop (Geom:=Geom))) : list Loop :=
  first_loops_from [] loops.

End views.
End views.

(** ** Single precision: the C [float] of [mathutils] *)

Module single.

(** A component of a [mathutils.Vector] is a binary32 number. *)
Definition float : Type := spec_float.

Definition prec : Z := 24.
Definition emax : Z := 128.

Definition fmul : float -> float -> float := SFmul prec emax.

(** The conversion of a Python [float] to a C [float], as for the scalar of
    [Vector * scalar]: rounded to nearest. *)
Definition of_double (x : py.float) : float :=
  match x with
  | S754_finite s m e => binary_normalize prec emax (if s then Zneg m else Zpos m) e s
  | _ => x
  end.

(** A number of the format that is not an infinity or a NaN. *)
Definition is_finite (x : float) : bool :=
  match x with S754_zero _ | S754_finite _ _ _ => true | _ => false end.

(** The value of a finite number in units of [2 ** -149], the smallest
    positive number of the format: every finite number of the format is a
    whole multiple of it. *)
Definition ticks (x : float) : Z :=
  match x with
  | S754_finite s m e => (if s then -1 else 1) * (Zpos m * 2 ^ (e + 149))
  | _ => 0
  end%Z.

(** The value of a finite number, as a real number. *)
Definition to_R (x : float) : R := (IZR (ticks x) / IZR (2 ^ 149))%R.

(** [Vector]: three components. *)
Definition Vector : Type := float * float * float.

(** [vec * scalar] *)
Definition Vector_mul (vec : Vector) (scalar : py.float) : Vector :=
  let f := of_double scalar in
  (fmul vec.1.1 f, fmul vec.1.2 f, fmul vec.2 f).

(** A property of every component, and a relation between the components
    of two vectors. *)
Definition all (P : float -> Prop) (v : Vector) : Prop := P v.1.1 ∧ P v.1.2 ∧ P v.2.
Definition all2 (P : float -> float -> Prop) (v w : Vector) : Prop :=
  P v.1.1 w.1.1 ∧ P v.1.2 w.1.2 ∧ P v.2 w.2.

End single.

(** *** blender/common/coordinate_converter.py, in single precision

    The positions of a file are single precision numbers, and so are the
    components of a [Vector]: [Vector(pos)] of such a position and [vec[:]]
    change no value. *)

Module coordinate_converter_single.
Import single.

(** The literals [0.01] and [100]: the double nearest to 1/100, and the
    integer as a double. *)
Definition literal_0_01 : py.float := py.fdiv (py.of_int 1) (py.of_int 100).
Definition literal_100 : py.float := py.of_int 100.

(** [Vector(pos) * 0.01] *)
Definition pos_cm_to_m (pos : Vector) : Vector := Vector_mul pos literal_0_01.

(** [(pos * 100)[:]] *)
Definition pos_m_to_cm (pos : Vector) : Vector := Vector_mul pos literal_100.

End coordinate_converter_single.

(** * Sample scenes

    Small concrete inputs, with [unit] for the values that are only copied. *)

Module samples.
Import py exporter.

(** A root node at the origin, not rotated, mirrored along X. *)
Definition mirrored_root : importer.CoordNode :=
  importer.mkCoordNode "root" (0, 0, 0)%R (0, 0, 0)%R (-1, 1, 1)%R 0%R 0 [].

(** A root with two children, one of them with a child of its own. *)
Definition small_forest : list importer.CoordNode :=
  [importer.mkCoordNode "hips" (0, 0, 0)%R (0, 0, 0)%R (1, 1, 1)%R 0%R 0
     [importer.mkCoordNode "spine" (0, 10, 0)%R (0, 0, 0)%R (1, 1, 1)%R 0%R 0
        [importer.mkCoordNode "head" (0, 20, 0)%R (0, 0, 0)%R (1, -1, 1)%R 0%R 0 []];
      importer.mkCoordNode "tail" (0, -10, 0)%R (0, 0, 0)%R (1, 1, 1)%R 0%R 0 []]].

Definition loop (i : nat) : Loop (Geom:=unit) := mkLoop i tt None None None.

Definition material : NuccChunkMaterial (Props:=unit) := mkMaterial "clump" "mat" tt.

Definition materials : gmap string (NuccChunkMaterial (Props:=unit)) :=
  {["mat"%string := material]}.

Definition mesh_object (name : string) (tris : list (Loop (Geom:=unit) * Loop * Loop))
    : MeshObject (Geom:=unit) (Props:=unit) :=
  mkMeshObject name tris (length tris) "mat" tt.

(** Two triangles on four surface vertices. *)
Definition quad : MeshObject (Geom:=unit) (Props:=unit) :=
  mesh_object "quad" [(loop 0, loop 1, loop 2); (loop 1, loop 2, loop 3)].

(** A triangle that uses vertex 5 twice, next to a proper one. *)
Definition sliver : MeshObject (Geom:=unit) (Props:=unit) :=
  mesh_object "sliver" [(loop 5, loop 5, loop 7); (loop 5, loop 7, loop 9)].

(** An empty whose mesh bone is not a bone of the armature. *)
Definition stray_empty : Empty (Geom:=unit) (Props:=unit) :=
  mkEmpty "body" "no such bone" tt [quad].

Definition coord (name : string) : NuccChunkCoord (Props:=unit) :=
  mkCoord "clump" name None tt None.

Definition all_meshes : Settings := mkSettings true true true true false [].

(** A model ["A"], and a group that names it, a model that does not exist and
    the string ["None"]. *)
Definition model_a : NuccChunkModel (Geom:=unit) (Props:=unit) :=
  mkModel "clump" "A" 0 [] [] tt.

Definition group_a_x_none : ModelGroupData := mkModelGroupData 0 0 "0" ["A"; "X"; "None"]%string.

(** A texture chunk whose file holds the four bytes of the magic and nothing
    more; the container is not looked at ([unit]). *)
Definition texture : TextureChunkData := mkTextureChunkData true "tex.nut" "clump" "tex".

Definition start : state (Geom:=unit) (Props:=unit) (Xfbin:=unit) := mkState tt ∅ [].

(** A container with the clump ["Foo"], whose lists are the objects 1, 2 and
    3 of the heap: one coord, the models [A] and [B], and a group of [A],
    [None] and [B].  The container is a list of clumps, looked up by path
    and name. *)
Definition model_b : NuccChunkModel (Geom:=unit) (Props:=unit) :=
  mkModel "clump" "B" 0 [] [] tt.

Definition old_foo : NuccChunkClump (Props:=unit) :=
  mkClump "clump" "Foo" tt 1%positive 2%positive 3%positive.

Definition disk_heap : heap (Geom:=unit) (Props:=unit) :=
  <[1%positive := CoordList [coord "root"]]>
    (<[2%positive := ModelList [Some model_a; Some model_b]]>
       (<[3%positive := GroupList [mkModelGroup 0 0 0 [Some model_a; None; Some model_b]]]> ∅)).

Definition lookup_clump (x : list (NuccChunkClump (Props:=unit))) (path name : string)
    : option (list (NuccChunkClump (Props:=unit))) :=
  match filter (fun c => clump_path c = path ∧ clump_name c = name) x with
  | [] => None
  | cs => Some cs
  end.

Definition disk_state : state (Geom:=unit) (Props:=unit) := mkState [old_foo] disk_heap [].

Definition armature (name : string) : ArmatureObject (Geom:=unit) (Props:=unit) :=
  mkArmatureObject name [] (mkClumpData "clump" tt [] [] [] []) [].

(** Inject, with bones and meshes not exported. *)
Definition keep_everything : Settings := mkSettings true false false true false [].

(** An armature with one bone and the empty ["body"], whose clump data lists
    the models ["ghost"] and ["body"]. *)
Definition body_armature : ArmatureObject (Geom:=unit) (Props:=unit) :=
  mkArmatureObject "Foo [C]" [mkBone "root" tt []]
    (mkClumpData "clump" tt [("mat"%string, tt)] ["ghost"; "body"]%string [] [])
    [mkEmpty "body" "root" tt [quad]].

(** A new file, with the three export flags off. *)
Definition new_file : Settings := mkSettings false false false false false [].

(** The single precision number [16383951 * 2 ** -14], about 999.99701, and
    the number before it. *)
Definition near_1000 : single.float := S754_finite false 16383951 (-14).
Definition near_1000_back : single.float := S754_finite false 16383950 (-14).

End samples.

(** * Properties *)

Import py coordinate_converter.

(** ** The index table of a clump *)

Section index_dict_facts.
Import exporter.

Lemma index_fold_lookup_None (l : list (nat * string)) (d : gmap string nat) (n : string) :
  d !! n = None -> n ∉ l.*2 ->
  foldl (fun d ni => <[ni.2 := ni.1]> d) d l !! n = None.
Proof.
  revert d. induction l as [|[i m] l IH]; intros d Hd Hn; simpl in *; [done|].
  apply not_elem_of_cons in Hn as [Hne Hn].
  apply IH; [|done]. by rewrite lookup_insert_ne.
Qed.

Lemma imap_pair_snd (f : nat -> nat) (names : list string) :
  (imap (fun i n => (f i, n)) names).*2 = names.
Proof.
  revert f. induction names as [|n names IH]; intros f; simpl; [done|].
  f_equal. apply (IH (f ∘ S)).
Qed.

Lemma index_dict_lookup_None (names : list string) (n : string) :
  n ∉ names -> index_dict names !! n = None.
Proof.
  intros Hn. unfold index_dict. apply index_fold_lookup_None; [done|].
  by rewrite (imap_pair_snd (fun i => i)).
Qed.

End index_dict_facts.

(** ** Building a mesh: the vertex table and the faces *)

Section mesh_facts.
Import exporter.
Context {Geom : Type}.
Implicit Types (b : mesh_builder (Geom:=Geom)) (l : Loop (Geom:=Geom)).
Implicit Types (tris : list (Loop (Geom:=Geom) * Loop (Geom:=Geom) * Loop (Geom:=Geom))).
Variable cid : gmap string nat.

(** The face a triangle is turned into by a vertex table. *)
Local Notation remap d :=
  (fun t : Loop * Loop * Loop =>
     ((d : gmap nat nat) !!! vert_index t.1.1, d !!! vert_index t.1.2, d !!! vert_index t.2)).

(** What holds of the builder between two steps: one vertex per entry of the
    table, and the entries number the vertices without repetition. *)
Record builder_ok b : Prop := mkBuilderOk {
  ok_length : length (b_vertices b) = size (vertex_indices_dict b);
  ok_bound : forall i v, vertex_indices_dict b !! i = Some v -> v < size (vertex_indices_dict b);
  ok_inj : forall i j v, vertex_indices_dict b !! i = Some v ->
                         vertex_indices_dict b !! j = Some v -> i = j;
}.

Lemma builder_ok_empty : builder_ok (mkMeshBuilder ∅ [] []).
Proof. split; simpl; [done | intros ?? H | intros ??? H]; by rewrite lookup_empty in H. Qed.

Lemma add_loop_spec b l :
  builder_ok b ->
  builder_ok (add_loop cid b l)
  ∧ vertex_indices_dict b ⊆ vertex_indices_dict (add_loop cid b l)
  ∧ dom (vertex_indices_dict (add_loop cid b l)) = {[vert_index l]} ∪ dom (vertex_indices_dict b)
  ∧ b_faces (add_loop cid b l) = b_faces b.
Proof.
  intros [Hlen Hbound Hinj]. unfold add_loop. case_decide as Hin.
  - split_and!; [by split | done | | done].
    apply elem_of_dom in Hin. set_solver.
  - apply eq_None_not_Some in Hin. simpl. split_and!.
    + split; simpl.
      * rewrite length_app, map_size_insert_None by done. simpl. lia.
      * intros i v. rewrite map_size_insert_None by done.
        rewrite lookup_insert. case_decide; [intros [= <-]; lia|].
        intros Hv. apply Hbound in Hv. lia.
      * intros i j v. rewrite !lookup_insert.
        repeat case_decide; subst; try done.
        -- intros [= <-] Hj. apply Hbound in Hj. lia.
        -- intros Hi [= <-]. apply Hbound in Hi. lia.
        -- apply Hinj.
    + by apply insert_subseteq.
    + by rewrite dom_insert_L.
    + done.
Qed.

Lemma add_loops_spec (ls : list Loop) b :
  builder_ok b ->
  builder_ok (foldl (add_loop cid) b ls)
  ∧ vertex_indices_dict b ⊆ vertex_indices_dict (foldl (add_loop cid) b ls)
  ∧ dom (vertex_indices_dict (foldl (add_loop cid) b ls))
      = list_to_set (vert_index <$> ls) ∪ dom (vertex_indices_dict b)
  ∧ b_faces (foldl (add_loop cid) b ls) = b_faces b.
Proof.
  revert b. induction ls as [|l ls IH]; intros b Hok; simpl.
  - split_and!; [done | done | set_solver | done].
  - destruct (add_loop_spec b l Hok) as (Hok1 & Hsub1 & Hdom1 & Hf1).
    destruct (IH _ Hok1) as (Hok2 & Hsub2 & Hdom2 & Hf2).
    split_and!; [done | by etrans | | congruence].
    rewrite Hdom2, Hdom1. set_solver.
Qed.

Lemma remap_mono (d d' : gmap nat nat) tris :
  d ⊆ d' -> list_to_set (corner_indices tris) ⊆ dom d ->
  remap d' <$> tris = remap d <$> tris.
Proof.
  intros Hsub. induction tris as [|[[l0 l1] l2] tris IH]; intros Hdom; simpl in *; [done|].
  assert (forall i, i ∈ dom d -> d' !!! i = d !!! i) as Heq.
  { intros i [v Hv]%elem_of_dom.
    rewrite (lookup_total_correct d i v Hv).
    apply lookup_total_correct. by eapply lookup_weaken. }
  f_equal; [|apply IH; set_solver].
  rewrite !Heq; [done | set_solver..].
Qed.

Lemma add_triangle_spec b t :
  builder_ok b ->
  builder_ok (add_triangle cid b t)
  ∧ vertex_indices_dict b ⊆ vertex_indices_dict (add_triangle cid b t)
  ∧ dom (vertex_indices_dict (add_triangle cid b t))
      = list_to_set (corner_indices [t]) ∪ dom (vertex_indices_dict b)
  ∧ b_faces (add_triangle cid b t)
      = b_faces b ++ [remap (vertex_indices_dict (add_triangle cid b t)) t].
Proof.
  intros Hok. destruct t as [[l0 l1] l2]. unfold add_triangle.
  destruct (add_loops_spec [l0; l1; l2] b Hok) as (Hok' & Hsub & Hdom & Hf).
  set (b' := foldl (add_loop cid) b [l0; l1; l2]) in *. clearbody b'.
  split_and!; cbn [vertex_indices_dict b_faces b_vertices fst snd].
  - destruct Hok'. by split.
  - done.
  - rewrite Hdom. simpl. set_solver.
  - by rewrite Hf.
Qed.

Lemma add_triangles_spec tris : forall b tris0,
  builder_ok b ->
  list_to_set (corner_indices tris0) ⊆ dom (vertex_indices_dict b) ->
  b_faces b = remap (vertex_indices_dict b) <$> tris0 ->
  let b' := foldl (add_triangle cid) b tris in
  builder_ok b'
  ∧ dom (vertex_indices_dict b')
      = list_to_set (corner_indices tris) ∪ dom (vertex_indices_dict b)
  ∧ b_faces b' = remap (vertex_indices_dict b') <$> (tris0 ++ tris).
Proof.
  induction tris as [|t tris IH]; intros b tris0 Hok Hdom0 Hfaces; simpl.
  - split_and!; [done | set_solver | by rewrite app_nil_r].
  - destruct (add_triangle_spec b t Hok) as (Hok1 & Hsub1 & Hdom1 & Hf1).
    destruct (IH (add_triangle cid b t) (tris0 ++ [t]) Hok1) as (Hok2 & Hdom2 & Hf2).
    + unfold corner_indices in *. rewrite flat_map_app, list_to_set_app_L, Hdom1.
      set_solver.
    + rewrite Hf1, fmap_app, Hfaces. f_equal.
      symmetry. by apply remap_mono.
    + split_and!; [done | | by rewrite <- (assoc_L (++)) in Hf2].
      rewrite Hdom2, Hdom1. unfold corner_indices. simpl. set_solver.
Qed.

Lemma build_mesh_spec tris :
  let b := build_mesh cid tris in
  builder_ok b
  ∧ dom (vertex_indices_dict b) = list_to_set (corner_indices tris)
  ∧ b_faces b = remap (vertex_indices_dict b) <$> tris.
Proof.
  destruct (add_triangles_spec tris (mkMeshBuilder ∅ [] []) [] builder_ok_empty)
    as (Hok & Hdom & Hf); [set_solver | done |].
  intros b. subst b. unfold build_mesh.
  split_and!; [done | | done].
  rewrite Hdom. simpl. rewrite dom_empty_L. set_solver.
Qed.

Lemma build_mesh_vertex_count tris :
  length (b_vertices (build_mesh cid tris))
  = size (list_to_set (corner_indices tris) : gset nat).
Proof.
  destruct (build_mesh_spec tris) as ([Hlen _ _] & Hdom & _).
  by rewrite Hlen, <- Hdom, size_dom.
Qed.

Lemma build_mesh_face_count tris :
  length (b_faces (build_mesh cid tris)) = length tris.
Proof.
  destruct (build_mesh_spec tris) as (_ & _ & Hf). by rewrite Hf, length_fmap.
Qed.

End mesh_facts.

(** ** Models: sub-meshes kept and dropped *)

Section model_facts.
Import exporter.
Context (MAX_VERTICES MAX_FACES : nat) {Geom Props : Type}.
Implicit Types (e : Empty (Geom:=Geom) (Props:=Props)).
Implicit Types (mo : MeshObject (Geom:=Geom) (Props:=Props)).
Implicit Types (mos : list (MeshObject (Geom:=Geom) (Props:=Props))).
Implicit Types (es : list (Empty (Geom:=Geom) (Props:=Props))).
Implicit Types (cid : gmap string nat).
Implicit Types (mats : gmap string (NuccChunkMaterial (Props:=Props))).

Local Notation convert_mesh := (exporter.convert_mesh MAX_VERTICES MAX_FACES).
Local Notation make_model := (exporter.make_model MAX_VERTICES MAX_FACES).
Local Notation add_empty := (exporter.add_empty MAX_VERTICES MAX_FACES).
Local Notation make_models := (exporter.make_models MAX_VERTICES MAX_FACES).

Lemma fold_add_mesh_object cid mats mos mb :
  foldl (add_mesh_object MAX_VERTICES MAX_FACES cid mats) mb mos
  = mkModelBuilder
      (mb_material_chunks mb ++ omap result_material (convert_mesh cid mats <$> mos))
      (mb_meshes mb ++ omap result_mesh (convert_mesh cid mats <$> mos))
      (mb_log mb ++ omap result_diagnostic (convert_mesh cid mats <$> mos)).
Proof.
  revert mb. induction mos as [|mo mos IH]; intros mb; simpl.
  - rewrite !app_nil_r. by destruct mb.
  - rewrite IH. unfold add_mesh_object.
    destruct (convert_mesh cid mats mo); simpl; by rewrite <- ?(assoc_L (++)).
Qed.

Lemma make_model_unfold path cid mats e :
  make_model path cid mats e
  = let rs := convert_mesh cid mats <$> empty_meshes e in
    match omap result_mesh rs with
    | [] => (None, omap result_diagnostic rs ++ [NudNoMeshes (empty_name e)])
    | _ :: _ =>
        (Some (mkModel path (empty_name e) (default 0 (cid !! mesh_bone e))
                       (omap result_material rs) (omap result_mesh rs) (nud_data e)),
         omap result_diagnostic rs)
    end.
Proof.
  unfold exporter.make_model. rewrite fold_add_mesh_object. simpl.
  by destruct (omap result_mesh _).
Qed.

Lemma convert_mesh_built cid mats mo m mat :
  convert_mesh cid mats mo = MeshBuilt m mat ->
  vertices m = b_vertices (build_mesh cid (loop_triangles mo))
  ∧ faces m = b_faces (build_mesh cid (loop_triangles mo))
  ∧ length (vertices m) <= MAX_VERTICES
  ∧ length (faces m) <= MAX_FACES
  ∧ 3 <= length (vertices m).
Proof.
  unfold exporter.convert_mesh. repeat case_bool_decide; try done.
  destruct (mats !! _); [|done]. intros [= <- <-]. simpl. split_and!; (done || lia).
Qed.

Lemma convert_mesh_over_capacity cid mats mo :
  MAX_VERTICES < size (list_to_set (corner_indices (loop_triangles mo)) : gset nat)
  ∨ MAX_FACES < length (loop_triangles mo) ->
  exists d, convert_mesh cid mats mo = MeshSkipped d.
Proof.
  rewrite <- (build_mesh_vertex_count cid), <- (build_mesh_face_count cid).
  intros Hover. unfold exporter.convert_mesh.
  repeat case_bool_decide; eauto; lia.
Qed.

Lemma add_empty_prefix settings h path cid old mats acc e :
  acc.1 `prefix_of` (add_empty settings h path cid old mats acc e).1.
Proof.
  unfold exporter.add_empty. destruct (select_empty settings e).
  - done.
  - destruct old; [|done]. destruct (old_models_named _ _); [done|].
    by apply prefix_app_r.
  - destruct (make_model _ _ _ _) as [[chunk|] log]; simpl; [by apply prefix_app_r | done].
Qed.

Lemma fold_add_empty_prefix settings h path cid old mats es acc :
  acc.1 `prefix_of` (foldl (add_empty settings h path cid old mats) acc es).1.
Proof.
  revert acc. induction es as [|e es IH]; intros acc; simpl; [done|].
  etrans; [apply add_empty_prefix | apply IH].
Qed.

Lemma fold_add_empty_elem settings h path cid old mats es acc e chunk :
  e ∈ es -> select_empty settings e = SelExport ->
  (make_model path cid mats e).1 = Some chunk ->
  chunk ∈ (foldl (add_empty settings h path cid old mats) acc es).1.
Proof.
  intros (es1 & es2 & ->)%list_elem_of_split Hsel Hmk.
  rewrite foldl_app. simpl.
  eapply elem_of_prefix; [|apply fold_add_empty_prefix].
  unfold exporter.add_empty at 1. rewrite Hsel.
  destruct (make_model _ _ _ _) as [[c|] log]; simpl in *; [|done].
  injection Hmk as ->. set_solver.
Qed.

End model_facts.

(** ** Claims about [make_models] *)

Section make_models_claims.
Import exporter.
Context (MAX_VERTICES MAX_FACES : nat) {Geom Props : Type}.
Implicit Types (e : Empty (Geom:=Geom) (Props:=Props)).
Implicit Types (mo : MeshObject (Geom:=Geom) (Props:=Props)).
Implicit Types (es : list (Empty (Geom:=Geom) (Props:=Props))).
Implicit Types (tris : list (Loop (Geom:=Geom) * Loop (Geom:=Geom) * Loop (Geom:=Geom))).
Implicit Types (cid : gmap string nat).
Implicit Types (mats : gmap string (NuccChunkMaterial (Props:=Props))).

Local Notation convert_mesh := (exporter.convert_mesh MAX_VERTICES MAX_FACES).
Local Notation make_model := (exporter.make_model MAX_VERTICES MAX_FACES).
Local Notation add_empty := (exporter.add_empty MAX_VERTICES MAX_FACES).
Local Notation make_models := (exporter.make_models MAX_VERTICES MAX_FACES).

(** C4, as the exporter behaves: no triangle is rejected.  The face list of a
    built mesh has one face per loop triangle, in order, each corner replaced
    by the output index of its surface vertex; every corner has an output
    index, and two different surface vertices never share one.  So a face has
    fewer than three different indices only when its triangle already used a
    surface vertex twice, and such a face is exported like any other. *)
Theorem faces_are_all_triangles_remapped cid tris :
  let b := build_mesh cid tris in
  let d := vertex_indices_dict b in
  b_faces b = (fun t => (d !!! vert_index t.1.1, d !!! vert_index t.1.2, d !!! vert_index t.2)) <$> tris
  ∧ length (b_faces b) = length tris
  ∧ (forall i, i ∈ corner_indices tris -> is_Some (d !! i))
  ∧ (forall i j, i ∈ corner_indices tris -> j ∈ corner_indices tris -> d !!! i = d !!! j -> i = j)
  ∧ (forall mats mo m mat,
       loop_triangles mo = tris -> convert_mesh cid mats mo = MeshBuilt m mat ->
       faces m = b_faces b).
Proof.
  intros b d. destruct (build_mesh_spec cid tris) as (Hok & Hdom & Hf).
  fold b in Hok, Hdom, Hf. fold d in Hdom, Hf.
  assert (forall i, i ∈ corner_indices tris -> is_Some (d !! i)) as Hsome.
  { intros i Hi. apply elem_of_dom. rewrite Hdom. set_solver. }
  split_and!.
  - exact Hf.
  - apply build_mesh_face_count.
  - exact Hsome.
  - intros i j [vi Hi]%Hsome [vj Hj]%Hsome.
    rewrite (lookup_total_correct _ _ _ Hi), (lookup_total_correct _ _ _ Hj).
    intros ->. by eapply (ok_inj _ Hok).
  - intros mats mo m mat <- Hm. by apply convert_mesh_built in Hm as (_ & ? & _).
Qed.

(** C6: a sub-mesh with more surface vertices than [MAX_VERTICES] or more
    triangles than [MAX_FACES] is skipped with a message; the meshes of a
    model are exactly the converted sub-meshes, each whole and within the
    limits; and an empty none of whose sub-meshes is converted yields no
    model (a message is printed and [model_chunks] stays as it was). *)
Theorem capacity_policy path cid mats settings h old e :
  (forall mo, mo ∈ empty_meshes e ->
     MAX_VERTICES < size (list_to_set (corner_indices (loop_triangles mo)) : gset nat)
     ∨ MAX_FACES < length (loop_triangles mo) ->
     exists d, convert_mesh cid mats mo = MeshSkipped d
               ∧ d ∈ (make_model path cid mats e).2)
  ∧ (forall chunk, (make_model path cid mats e).1 = Some chunk ->
       nud_meshes chunk = omap result_mesh (convert_mesh cid mats <$> empty_meshes e)
       ∧ Forall (fun m => exists mo, mo ∈ empty_meshes e
                   ∧ vertices m = b_vertices (build_mesh cid (loop_triangles mo))
                   ∧ faces m = b_faces (build_mesh cid (loop_triangles mo))
                   ∧ length (vertices m) <= MAX_VERTICES
                   ∧ length (faces m) <= MAX_FACES) (nud_meshes chunk))
  ∧ (Forall (fun mo => result_mesh (convert_mesh cid mats mo) = None) (empty_meshes e) ->
       (make_model path cid mats e).1 = None
       ∧ NudNoMeshes (empty_name e) ∈ (make_model path cid mats e).2
       ∧ forall acc, select_empty settings e = SelExport ->
           (add_empty settings h path cid old mats acc e).1 = acc.1).
Proof.
  split_and!.
  - intros mo Hmo Hover.
    destruct (convert_mesh_over_capacity MAX_VERTICES MAX_FACES cid mats mo Hover) as [d Hd].
    exists d. split; [done|].
    assert (d ∈ omap result_diagnostic (convert_mesh cid mats <$> empty_meshes e)) as Hin.
    { apply list_elem_of_omap. exists (MeshSkipped d). split; [|done].
      rewrite <- Hd. by apply list_elem_of_fmap_2. }
    rewrite make_model_unfold. cbv zeta.
    destruct (omap result_mesh _); simpl; set_solver.
  - intros chunk. rewrite make_model_unfold. cbv zeta.
    destruct (omap result_mesh _) as [|m ms] eqn:Hms; [done|]. simpl.
    intros [= <-]. simpl. split; [done|].
    rewrite <- Hms. apply Forall_forall. intros m' Hm'.
    apply list_elem_of_omap in Hm' as (r & Hr & Hrm).
    apply list_elem_of_fmap in Hr as (mo & -> & Hmo).
    destruct (convert_mesh cid mats mo) as [|m'' mat] eqn:Hc; [done|].
    injection Hrm as ->. exists mo. split; [done|].
    apply convert_mesh_built in Hc. naive_solver.
  - intros Hnone.
    assert (omap result_mesh (convert_mesh cid mats <$> empty_meshes e) = []) as Hnil.
    { induction Hnone as [|mo mos Hmo _ IH]; simpl; [done|]. by rewrite Hmo. }
    assert (make_model path cid mats e
            = (None, omap result_diagnostic (convert_mesh cid mats <$> empty_meshes e)
                       ++ [NudNoMeshes (empty_name e)])) as Hmk.
    { rewrite make_model_unfold. cbv zeta. by rewrite Hnil. }
    split_and!.
    + by rewrite Hmk.
    + rewrite Hmk. simpl. set_solver.
    + intros acc Hsel. unfold exporter.add_empty. by rewrite Hsel, Hmk.
Qed.

(** C10: when the mesh bone of an exported empty is not the name of a coord
    of the clump, and one of its sub-meshes is converted, the model is in the
    output of [make_models] and its coord index is 0. *)
Theorem missing_mesh_bone_defaults_to_zero
    settings h es path (coords : list (NuccChunkCoord (Props:=Props))) old mats e mo m mat :
  e ∈ es ->
  select_empty settings e = SelExport ->
  mesh_bone e ∉ coord_name <$> coords ->
  mo ∈ empty_meshes e ->
  convert_mesh (index_dict (coord_name <$> coords)) mats mo = MeshBuilt m mat ->
  exists chunk,
    chunk ∈ (make_models settings h es path coords old mats).1
    ∧ model_name chunk = empty_name e
    ∧ coord_index chunk = 0
    ∧ nud_meshes chunk
      = omap result_mesh (convert_mesh (index_dict (coord_name <$> coords)) mats <$> empty_meshes e).
Proof.
  intros He Hsel Hbone Hmo Hm.
  set (cid := index_dict (coord_name <$> coords)) in *.
  pose proof (make_model_unfold MAX_VERTICES MAX_FACES path cid mats e) as Hmk.
  cbv zeta in Hmk.
  assert (m ∈ omap result_mesh (convert_mesh cid mats <$> empty_meshes e)) as Hin.
  { apply list_elem_of_omap. exists (MeshBuilt m mat). split; [|done].
    rewrite <- Hm. by apply list_elem_of_fmap_2. }
  destruct (omap result_mesh _) as [|m0 ms] eqn:Hms; [by apply elem_of_nil in Hin|].
  eexists. split_and!.
  - unfold exporter.make_models. fold cid.
    eapply fold_add_empty_elem; [done..|]. by rewrite Hmk.
  - done.
  - simpl. unfold cid. by rewrite index_dict_lookup_None.
  - done.
Qed.

End make_models_claims.

(** A witness for [missing_mesh_bone_defaults_to_zero]: the empty ["body"]
    names a mesh bone the armature does not have. *)
Lemma missing_mesh_bone_witness :
  exists chunk,
    chunk ∈ (exporter.make_models 10 10 samples.all_meshes ∅ [samples.stray_empty]
               "clump" [samples.coord "root"] None samples.materials).1
    ∧ exporter.model_name chunk = "body"%string
    ∧ exporter.coord_index chunk = 0
    ∧ exporter.nud_meshes chunk
      = omap exporter.result_mesh
          (exporter.convert_mesh 10 10 (exporter.index_dict ["root"%string]) samples.materials
             <$> [samples.quad]).
Proof.
  eapply (missing_mesh_bone_defaults_to_zero 10 10 samples.all_meshes ∅
            [samples.stray_empty] "clump" [samples.coord "root"] None samples.materials
            samples.stray_empty samples.quad).
  - by apply list_elem_of_singleton.
  - reflexivity.
  - simpl. by intros [= ]%list_elem_of_singleton.
  - by apply list_elem_of_singleton.
  - vm_compute. reflexivity.
Defined.

(** C4 fails as stated: the first triangle of the sample mesh uses surface
    vertex 5 twice, and the built mesh has the face [(0, 0, 1)]. *)
Lemma degenerate_face_is_exported :
  exists m mat,
    exporter.convert_mesh 10 10 ∅ samples.materials samples.sliver = exporter.MeshBuilt m mat
    ∧ exporter.faces m = [(0, 0, 1); (0, 1, 2)].
Proof. do 2 eexists. split; vm_compute; reflexivity. Qed.

(** C6 on a sample: with a limit of three vertices the four-vertex mesh is
    skipped, and the empty that has nothing else yields no model. *)
Lemma capacity_policy_sample :
  (exists d, exporter.convert_mesh 3 10 ∅ samples.materials samples.quad = exporter.MeshSkipped d
             ∧ d ∈ (exporter.make_model 3 10 "clump" ∅ samples.materials samples.stray_empty).2)
  ∧ (exporter.make_models 3 10 samples.all_meshes ∅ [samples.stray_empty]
       "clump" [] None samples.materials).1 = [].
Proof.
  pose proof (capacity_policy 3 10 "clump" ∅ samples.materials samples.all_meshes
                ∅ None samples.stray_empty) as (Hover & _ & Hnone).
  split.
  - apply Hover; [by apply list_elem_of_singleton|]. left. vm_compute. lia.
  - destruct Hnone as (_ & _ & Hacc).
    + repeat constructor.
    + exact (Hacc ([], []) eq_refl).
Defined.

(** ** Claims about [make_clump]: the model groups *)

Section model_group_claims.
Import exporter.
Context {Geom Props : Type} (hex_str_to_int : string -> Z).
Implicit Types (models : list (NuccChunkModel (Geom:=Geom) (Props:=Props))).
Implicit Types (d : gmap string (option (NuccChunkModel (Geom:=Geom) (Props:=Props)))).

Lemma model_dict_snoc models m :
  model_dict (models ++ [m]) = <[model_name m := Some m]> (model_dict models).
Proof. unfold model_dict. by rewrite foldl_app. Qed.

(** The dict of the models holds, under a name, the last model of that name. *)
Lemma model_dict_lookup models c :
  model_dict models !! c = Some <$> last (filter (fun m => model_name m = c) models).
Proof.
  induction models as [|m models IH] using rev_ind; [done|].
  rewrite model_dict_snoc, filter_app, lookup_insert.
  case_decide as Hc.
  - rewrite filter_cons_True, filter_nil by done. by rewrite last_snoc.
  - rewrite filter_cons_False, filter_nil, app_nil_r by done. exact IH.
Qed.

Lemma model_dict_is_Some models c :
  is_Some (model_dict models !! c) <-> c ∈ model_name <$> models.
Proof.
  rewrite model_dict_lookup, fmap_is_Some, last_is_Some. split.
  - intros Hne. destruct (filter _ models) as [|m l] eqn:Hf; [done|].
    assert (m ∈ filter (fun m => model_name m = c) models) as Hm by (rewrite Hf; left).
    apply list_elem_of_filter in Hm as [<- Hm]. by apply list_elem_of_fmap_2.
  - intros (m & -> & Hm)%list_elem_of_fmap Hnil.
    assert (m ∈ filter (fun m' => model_name m' = model_name m) models) as Hin
      by by apply list_elem_of_filter.
    rewrite Hnil in Hin. by apply elem_of_nil in Hin.
Qed.

Lemma length_omap_filter {A B} (f : A -> option B) (l : list A) :
  length (omap f l) = length (filter (fun x => is_Some (f x)) l).
Proof.
  induction l as [|x l IH]; [done|].
  rewrite filter_cons. cbn [omap list_omap].
  destruct (f x) as [y|] eqn:Hfx.
  - rewrite decide_True by done. cbn [length]. by f_equal.
  - rewrite decide_False by (by intros [? ?]). exact IH.
Qed.

(** C1, as the exporter behaves: every group of the clump data yields one
    group.  An entry whose key is the string ["None"] becomes the reference
    [None]; an entry that names a model of the resolved set becomes the last
    model of that name; every other entry is removed.  So a group has as
    many entries as its input has keys that are ["None"] or name a model. *)
Theorem group_entries_resolved models (groups : list ModelGroupData) :
  let out := make_model_groups hex_str_to_int (model_dict models) groups in
  let entry (c : string) :=
    if decide (c = "None"%string) then Some None
    else Some <$> last (filter (fun m => model_name m = c) models) in
  out = (fun gd => mkModelGroup (group_flag0 gd) (group_flag1 gd)
                     (hex_str_to_int (group_unk gd)) (omap entry (group_models gd)))
        <$> groups
  ∧ length out = length groups
  ∧ Forall2 (fun g gd =>
       length (g_model_chunks g)
       = length (filter (fun c => c = "None"%string ∨ c ∈ model_name <$> models)
                        (group_models gd)))
      out groups.
Proof.
  intros out entry.
  assert (forall c, <["None"%string := None]> (model_dict models) !! c = entry c) as Hentry.
  { intros c. unfold entry. rewrite lookup_insert.
    repeat case_decide; try done. apply model_dict_lookup. }
  assert (out = (fun gd => mkModelGroup (group_flag0 gd) (group_flag1 gd)
                     (hex_str_to_int (group_unk gd)) (omap entry (group_models gd)))
                <$> groups) as Hout.
  { unfold out, make_model_groups. apply list_fmap_ext. intros _ gd _.
    unfold make_model_group, resolve_models. f_equal.
    apply list_omap_ext. apply Forall2_same_length_lookup_2; [done|].
    intros i x y Hx Hy. rewrite Hx in Hy. injection Hy as <-. apply Hentry. }
  split_and!; [done | by rewrite Hout, length_fmap |].
  rewrite Hout. apply Forall2_fmap_l, Forall_Forall2_diag, Forall_forall.
  intros gd _. simpl. rewrite length_omap_filter. f_equal.
  apply list_filter_iff. intros c. unfold entry. case_decide as Hc.
  - split; [by left | by eauto].
  - rewrite <- model_dict_lookup, model_dict_is_Some. naive_solver.
Qed.

End model_group_claims.

(** C1 fails as stated: of the three entries ["A"], ["X"], ["None"] of the
    sample group, with ["A"] the only model, two are left; the entry ["X"] is
    removed and only the string ["None"] becomes the reference [None]. *)
Lemma unknown_group_entry_is_dropped :
  exporter.g_model_chunks
    <$> exporter.make_model_groups (fun _ => 0%Z) (exporter.model_dict [samples.model_a])
          [samples.group_a_x_none]
  = [[Some samples.model_a; None]]
  ∧ length (exporter.group_models samples.group_a_x_none) = 3.
Proof. split; vm_compute; reflexivity. Qed.

(** ** The export as a computation *)

Section export_facts.
Import exporter.
Context (MAX_VERTICES MAX_FACES : nat) {Geom Props : Type} (hex_str_to_int : string -> Z).
Context {Xfbin : Type} (Xfbin_new : Xfbin).
Local Notation state := (exporter.state (Geom:=Geom) (Props:=Props) (Xfbin:=Xfbin)).
Local Notation M := (exporter.M (Geom:=Geom) (Props:=Props) (Xfbin:=Xfbin)).
Local Notation heap := (exporter.heap (Geom:=Geom) (Props:=Props)).
Local Notation NuccChunkClump := (exporter.NuccChunkClump (Props:=Props)).
Context (read_xfbin : string -> Xfbin * heap).
Context (add_chunk_page : Xfbin -> NuccChunkTexture -> Xfbin).
Context (add_clump_page : Xfbin -> NuccChunkClump -> Xfbin).
Context (get_chunk_page : Xfbin -> string -> string -> option (list NuccChunkClump)).
Context (isfile : string -> bool) (read_bytes : string -> list byte).

Local Notation make_clump := (exporter.make_clump MAX_VERTICES MAX_FACES hex_str_to_int get_chunk_page).
Local Notation find_old_clump := (exporter.find_old_clump get_chunk_page).
Local Notation export_texture_chunk := (exporter.export_texture_chunk add_chunk_page isfile read_bytes).
Local Notation export_armature :=
  (exporter.export_armature MAX_VERTICES MAX_FACES hex_str_to_int
     add_chunk_page add_clump_page get_chunk_page isfile read_bytes).
Local Notation run_export :=
  (exporter.run_export MAX_VERTICES MAX_FACES hex_str_to_int Xfbin_new read_xfbin
     add_chunk_page add_clump_page get_chunk_page isfile read_bytes).

Local Notation event := (exporter.event (Props:=Props) (Xfbin:=Xfbin)).
Local Notation adds_events := (exporter.adds_events (Geom:=Geom) (Props:=Props) (Xfbin:=Xfbin)).
Local Notation keeps_heap := (exporter.keeps_heap (Geom:=Geom) (Props:=Props) (Xfbin:=Xfbin)).

Implicit Types (s : state) (R : state -> state -> Prop).

(** *** Sequencing *)

Lemma bind_Return {A B} (m : M A) (k : A -> M B) s s' a :
  m s = (s', Return a) -> bind m k s = k a s'.
Proof. unfold bind. by intros ->. Qed.

Lemma bind_Raise {A B} (m : M A) (k : A -> M B) s s' msg :
  m s = (s', Raise msg) -> bind m k s = (s', Raise msg).
Proof. unfold bind. by intros ->. Qed.

Lemma for_each_app {A} (l1 l2 : list A) (body : A -> M unit) s :
  for_each (l1 ++ l2) body s
  = match for_each l1 body s with
    | (s1, Return _) => for_each l2 body s1
    | (s1, Raise msg) => (s1, Raise msg)
    end.
Proof.
  revert s. induction l1 as [|x l1 IH]; intros s; simpl; [done|].
  unfold bind. destruct (body x s) as [s1 [[]|msg]]; [apply IH | done].
Qed.

(** The first body that raises ends the loop. *)
Lemma for_each_raises {A} (l1 l2 : list A) (x : A) (body : A -> M unit) s s1 s2 msg :
  for_each l1 body s = (s1, Return tt) ->
  body x s1 = (s2, Raise msg) ->
  for_each (l1 ++ x :: l2) body s = (s2, Raise msg).
Proof.
  intros H1 Hx. rewrite for_each_app, H1. simpl. by erewrite bind_Raise.
Qed.

(** *** Relations every step keeps *)

Section preserves.
Context R `{!PreOrder R}.

Lemma preserves_ret {A} (a : A) : preserves R (ret a).
Proof. intros s. simpl. reflexivity. Qed.

Lemma preserves_raise {A} msg : preserves R (raise (A:=A) msg).
Proof. intros s. simpl. reflexivity. Qed.

Lemma preserves_get_state : preserves R get_state.
Proof. intros s. simpl. reflexivity. Qed.

Lemma preserves_bind {A B} (m : M A) (k : A -> M B) :
  preserves R m -> (forall a, preserves R (k a)) -> preserves R (bind m k).
Proof.
  intros Hm Hk s. unfold bind. specialize (Hm s).
  destruct (m s) as [s1 [a|msg]]; simpl in *; [|done].
  etrans; [exact Hm | apply Hk].
Qed.

Lemma preserves_for_each {A} (l : list A) (body : A -> M unit) :
  (forall x, preserves R (body x)) -> preserves R (for_each l body).
Proof.
  intros Hbody. induction l as [|x l IH]; simpl.
  - apply preserves_ret.
  - apply preserves_bind; [apply Hbody | by intros _].
Qed.
End preserves.

#[local] Instance adds_events_preorder (Q : event -> Prop) : PreOrder (adds_events Q).
Proof.
  split.
  - intros s. exists []. by rewrite app_nil_r.
  - intros s1 s2 s3 (e1 & H1 & Q1) (e2 & H2 & Q2). exists (e1 ++ e2).
    split; [by rewrite H2, H1, (assoc_L (++)) | by apply Forall_app].
Qed.

#[local] Instance keeps_heap_preorder : PreOrder keeps_heap.
Proof.
  split.
  - by intros s l _.
  - intros s1 s2 s3 H1 H2 l Hl. rewrite H2, H1; [done..|]. by rewrite H1.
Qed.

Lemma adds_events_emit Q (e : event) : Q e -> preserves (adds_events Q) (emit e).
Proof. intros He s. exists [e]. simpl. split; [done | by constructor]. Qed.

Lemma adds_events_print_all Q ds :
  (forall d, Q (Print d)) -> preserves (adds_events Q) (print_all ds).
Proof.
  intros HQ s. exists (Print <$> ds). split; [done|].
  apply Forall_fmap, Forall_forall. intros d _. apply HQ.
Qed.

Lemma adds_events_alloc Q o : preserves (adds_events Q) (alloc o).
Proof. intros s. exists []. simpl. by rewrite app_nil_r. Qed.

Lemma adds_events_set_xfbin Q x : preserves (adds_events Q) (set_xfbin x).
Proof. intros s. exists []. simpl. by rewrite app_nil_r. Qed.

Lemma keeps_heap_emit e : preserves keeps_heap (emit e).
Proof. by intros s l _. Qed.

Lemma keeps_heap_print_all ds : preserves keeps_heap (print_all ds).
Proof. by intros s l _. Qed.

Lemma keeps_heap_set_xfbin x : preserves keeps_heap (set_xfbin x).
Proof. by intros s l _. Qed.

Lemma keeps_heap_alloc o : preserves keeps_heap (alloc o).
Proof.
  intros s l Hl. simpl. unfold exporter.heap, loc in *.
  rewrite lookup_insert_ne; [done|]. intros <-.
  apply elem_of_dom in Hl. by apply is_fresh in Hl.
Qed.

Lemma adds_events_weaken (Q Q' : event -> Prop) s s' :
  (forall e, Q e -> Q' e) -> adds_events Q s s' -> adds_events Q' s s'.
Proof.
  intros HQ (evs & Hev & Hall). exists evs. split; [done|].
  eapply Forall_impl; [exact Hall | exact HQ].
Qed.

(** *** What the steps of an export do to the events and to the heap *)

Ltac preserves_step :=
  lazymatch goal with
  | |- preserves _ (ret _) => apply preserves_ret; tc_solve
  | |- preserves _ (raise _) => apply preserves_raise; tc_solve
  | |- preserves _ get_state => apply preserves_get_state; tc_solve
  | |- preserves _ (bind _ _) => apply preserves_bind; [tc_solve | | intros ?]
  | |- preserves _ (for_each _ _) => apply preserves_for_each; [tc_solve | intros ?]
  | |- preserves _ (if ?b then _ else _) => destruct b
  | |- preserves _ (match ?x with _ => _ end) => destruct x
  | |- preserves (exporter.adds_events _) (alloc _) => apply adds_events_alloc
  | |- preserves (exporter.adds_events _) (set_xfbin _) => apply adds_events_set_xfbin
  | |- preserves (exporter.keeps_heap) (alloc _) => apply keeps_heap_alloc
  | |- preserves (exporter.keeps_heap) (set_xfbin _) => apply keeps_heap_set_xfbin
  | |- preserves (exporter.keeps_heap) (emit _) => apply keeps_heap_emit
  | |- preserves (exporter.keeps_heap) (print_all _) => apply keeps_heap_print_all
  end.

Lemma find_old_clump_state settings path name s :
  (find_old_clump settings path name s).1 = s.
Proof.
  unfold exporter.find_old_clump. destruct (inject_to_xfbin settings); [|done].
  unfold bind. simpl. by destruct (get_chunk_page _ _ _) as [ [ | ? ? ] | ].
Qed.

Lemma find_old_clump_found settings path name s old rest :
  inject_to_xfbin settings = true ->
  get_chunk_page (xfbin s) path name = Some (old :: rest) ->
  find_old_clump settings path name s = (s, Return (Some old)).
Proof. intros Hi Hg. unfold exporter.find_old_clump, bind. simpl. by rewrite Hi, Hg. Qed.

Lemma find_old_clump_missing settings path name s :
  inject_to_xfbin settings = false ∨ get_chunk_page (xfbin s) path name = None ->
  find_old_clump settings path name s = (s, Return None).
Proof.
  intros Hno. unfold exporter.find_old_clump, bind. simpl.
  destruct (inject_to_xfbin settings); [|done]. by destruct Hno as [? | ->].
Qed.

Lemma find_old_clump_preserves R `{!PreOrder R} settings path name :
  preserves R (find_old_clump settings path name).
Proof. intros s. rewrite find_old_clump_state. reflexivity. Qed.

Lemma make_clump_keeps_heap settings arm : preserves keeps_heap (make_clump settings arm).
Proof.
  unfold exporter.make_clump.
  apply preserves_bind; [tc_solve | apply find_old_clump_preserves; tc_solve | intros ?].
  repeat preserves_step.
Qed.

Lemma make_clump_adds_events (Q : event -> Prop) settings arm :
  (forall d, Q (Print d)) -> preserves (adds_events Q) (make_clump settings arm).
Proof.
  intros HQ. unfold exporter.make_clump.
  apply preserves_bind; [tc_solve | apply find_old_clump_preserves; tc_solve | intros ?].
  repeat first [ by apply adds_events_print_all | preserves_step ].
Qed.

Lemma export_texture_chunk_adds_events (Q : event -> Prop) tc :
  (forall d, Q (Print d)) ->
  (forall chunk, nut_data_valid (nut_data chunk) = true -> Q (AddChunkPage chunk)) ->
  preserves (adds_events Q) (export_texture_chunk tc).
Proof.
  intros HP HT. unfold exporter.export_texture_chunk.
  destruct (_ && _); [|preserves_step].
  destruct (nut_data_valid _) eqn:Hvalid; simpl.
  - repeat first [ by apply adds_events_emit, HT | preserves_step ].
  - by apply adds_events_emit.
Qed.

Lemma export_texture_chunk_returns tc s :
  (export_texture_chunk tc s).2 = Return tt.
Proof.
  unfold exporter.export_texture_chunk.
  destruct (_ && _); [|done]. by destruct (negb _).
Qed.

Lemma export_textures_return tcs s :
  (for_each tcs export_texture_chunk s).2 = Return tt.
Proof.
  revert s. induction tcs as [|tc tcs IH]; intros s; simpl; [done|].
  unfold bind. pose proof (export_texture_chunk_returns tc s) as Hr.
  destruct (export_texture_chunk tc s) as [s1 r]. simpl in Hr. subst r. apply IH.
Qed.

Lemma export_armature_adds_events (Q : event -> Prop) settings arm :
  (forall d, Q (Print d)) ->
  (forall chunk, nut_data_valid (nut_data chunk) = true -> Q (AddChunkPage chunk)) ->
  (forall clump, Q (AddClumpPage clump)) ->
  preserves (adds_events Q) (export_armature settings arm).
Proof.
  intros HP HT HC. unfold exporter.export_armature.
  repeat first [ by apply export_texture_chunk_adds_events
               | by apply make_clump_adds_events
               | by apply adds_events_emit
               | preserves_step ].
Qed.

(** The events of a whole export: steps that satisfy [Q], and at the end of
    an export that returns (and only then) the one write of the container. *)
Lemma run_export_events (Q : event -> Prop) filepath settings armatures :
  (forall d, Q (Print d)) ->
  (forall chunk, nut_data_valid (nut_data chunk) = true -> Q (AddChunkPage chunk)) ->
  (forall clump, Q (AddClumpPage clump)) ->
  exists evs, Forall Q evs
    ∧ match (run_export filepath settings armatures).2 with
      | Return _ =>
          events (run_export filepath settings armatures).1
          = evs ++ [WriteXfbin (xfbin (run_export filepath settings armatures).1) filepath]
      | Raise _ => events (run_export filepath settings armatures).1 = evs
      end.
Proof.
  intros HP HT HC.
  assert (forall settings' s0, events s0 = [] ->
    let r := bind (for_each armatures (export_armature settings'))
               (fun _ => bind get_state (fun s => emit (WriteXfbin (xfbin s) filepath))) s0 in
    exists evs, Forall Q evs
      ∧ match r.2 with
        | Return _ => events r.1 = evs ++ [WriteXfbin (xfbin r.1) filepath]
        | Raise _ => events r.1 = evs
        end) as Hbody.
  { intros settings' s0 Hs0 r.
    destruct (preserves_for_each (adds_events Q) armatures (export_armature settings')
                (fun arm => export_armature_adds_events Q settings' arm HP HT HC) s0)
      as (evs & Hev & Hall).
    rewrite Hs0 in Hev. simpl in Hev. exists evs. split; [done|].
    destruct (for_each armatures _ s0) as [s1 [[]|msg]] eqn:Hfe; subst r.
    - rewrite (bind_Return _ _ _ _ _ Hfe). simpl in *. by rewrite Hev.
    - rewrite (bind_Raise _ _ _ _ _ Hfe). done. }
  unfold exporter.run_export, exporter.export_collection. unfold bind at 1.
  destruct (inject_to_xfbin settings).
  - destruct (isfile filepath).
    + apply Hbody. done.
    + exists []. split; [constructor | done].
  - apply Hbody. done.
Qed.

Lemma nut_data_valid_iff (data : list byte) :
  nut_data_valid data = true <-> exists rest, rest ≠ [] ∧ data = NTP3 ++ rest.
Proof.
  unfold nut_data_valid. rewrite andb_true_iff, !bool_decide_eq_true. split.
  - intros [Hlen Hmagic]. exists (drop 4 data). split.
    + intros Hnil. apply (f_equal length) in Hnil. rewrite length_drop in Hnil.
      simpl in Hnil. lia.
    + by rewrite <- Hmagic, take_drop.
  - intros (rest & Hrest & ->). split; [|done].
    rewrite length_app. destruct rest; [done|]. simpl. lia.
Qed.

(** C7, as the exporter behaves.  For a texture chunk that is included and
    whose NUT path is an existing file: bytes that do not start with [NTP3],
    or that are not more than four, only print the message; bytes [NTP3]
    followed by at least one more byte are added as a page.  Neither case
    raises, and in a whole export every page added for a texture holds
    [NTP3] followed by at least one byte. *)
Theorem texture_validation tc s :
  let data := read_bytes (tc_nut_path tc) in
  let chunk := mkTexture (tc_path tc) (tc_texture_name tc) data in
  (tc_include tc = true -> tc_nut_path tc ≠ ""%string -> isfile (tc_nut_path tc) = true ->
     (take 4 data ≠ NTP3 ∨ length data <= 4 ->
        export_texture_chunk tc s
        = (mkState (xfbin s) (st_heap s) (events s ++ [Print (NutNotValid (tc_texture_name tc))]),
           Return tt))
     ∧ (forall rest, rest ≠ [] -> data = NTP3 ++ rest ->
          export_texture_chunk tc s
          = (mkState (add_chunk_page (xfbin s) chunk) (st_heap s)
                     (events s ++ [AddChunkPage chunk]),
             Return tt)))
  ∧ (export_texture_chunk tc s).2 = Return tt
  ∧ (forall filepath settings armatures chunk',
       AddChunkPage chunk' ∈ events (run_export filepath settings armatures).1 ->
       exists rest, rest ≠ [] ∧ nut_data chunk' = NTP3 ++ rest).
Proof.
  intros data chunk. split_and!.
  - intros Hinc Hpath Hfile.
    assert (tc_include tc && negb (String.eqb (tc_nut_path tc) "")
            && isfile (tc_nut_path tc) = true) as Hcond.
    { rewrite Hinc, Hfile. by apply String.eqb_neq in Hpath as ->. }
    split.
    + intros Hbad. unfold exporter.export_texture_chunk. rewrite Hcond.
      assert (nut_data_valid data = false) as Hinvalid.
      { unfold nut_data_valid. apply andb_false_iff.
        destruct Hbad; [right | left]; apply bool_decide_eq_false; [done | lia]. }
      cbn [nut_data]. fold data. by rewrite Hinvalid.
    + intros rest Hrest Hdata. unfold exporter.export_texture_chunk. rewrite Hcond.
      assert (nut_data_valid data = true) as Hvalid by (apply nut_data_valid_iff; eauto).
      cbn [nut_data]. fold data. by rewrite Hvalid.
  - apply export_texture_chunk_returns.
  - intros filepath settings armatures chunk' Hin.
    destruct (run_export_events texture_event_valid filepath settings armatures)
      as (evs & Hall & Hev); [done..|].
    apply nut_data_valid_iff.
    assert (AddChunkPage chunk' ∈ evs) as Hin'.
    { destruct (run_export _ _ _).2; rewrite Hev in Hin; [|done].
      apply elem_of_app in Hin as [?|Hw]; [done|].
      by apply list_elem_of_singleton in Hw. }
    by apply (proj1 (Forall_forall _ _) Hall) in Hin'.
Qed.

(** *** Reusing the lists of the existing clump *)

Lemma make_clump_reuse settings arm s old rest :
  inject_to_xfbin settings = true ->
  get_chunk_page (xfbin s) (cd_path (xfbin_clump_data arm))
                 (strip_clump_suffix (armature_name arm)) = Some (old :: rest) ->
  exists s' clump,
    make_clump settings arm s = (s', Return clump)
    ∧ (export_bones settings = false -> coord_chunks clump = coord_chunks old)
    ∧ (export_meshes settings = false ->
         model_chunks clump = model_chunks old ∧ model_groups clump = model_groups old)
    ∧ keeps_heap s s'.
Proof.
  intros Hinject Hpage.
  pose proof (make_clump_keeps_heap settings arm s) as Hkeep.
  assert (exists s' clump,
    make_clump settings arm s = (s', Return clump)
    ∧ (export_bones settings = false -> coord_chunks clump = coord_chunks old)
    ∧ (export_meshes settings = false ->
         model_chunks clump = model_chunks old ∧ model_groups clump = model_groups old))
    as (s' & clump & Hmk & Hb & Hm).
  { unfold exporter.make_clump.
    rewrite (bind_Return _ _ _ _ _ (find_old_clump_found _ _ _ _ _ _ Hinject Hpage)).
    destruct (export_bones settings), (export_meshes settings);
      unfold bind; cbn; eexists _, _; (split; [reflexivity|]); by split. }
  exists s', clump. rewrite Hmk in Hkeep. done.
Qed.

Lemma make_clump_fatal settings arm s :
  inject_to_xfbin settings = false
  ∨ get_chunk_page (xfbin s) (cd_path (xfbin_clump_data arm))
                   (strip_clump_suffix (armature_name arm)) = None ->
  (export_bones settings = false ->
     make_clump settings arm s = (s, Raise "Cannot export bones."))
  ∧ (export_bones settings = true -> export_meshes settings = false ->
       exists s', make_clump settings arm s = (s', Raise "Cannot export meshes.")
                  ∧ events s' = events s ∧ xfbin s' = xfbin s).
Proof.
  intros Hmissing. unfold exporter.make_clump.
  rewrite (bind_Return _ _ _ _ _ (find_old_clump_missing _ _ _ _ Hmissing)).
  split.
  - by intros ->.
  - intros -> ->. unfold bind. cbn. by eexists.
Qed.

Lemma export_armature_raises settings arm s s' msg :
  make_clump settings arm
    (for_each (cd_texture_chunks (xfbin_clump_data arm)) export_texture_chunk s).1
  = (s', Raise msg) ->
  export_armature settings arm s = (s', Raise msg).
Proof.
  intros Hmk. unfold exporter.export_armature.
  pose proof (export_textures_return (cd_texture_chunks (xfbin_clump_data arm)) s) as Htex.
  destruct (for_each _ export_texture_chunk s) as [s1 r] eqn:Hfe. simpl in *. subst r.
  rewrite (bind_Return _ _ _ _ _ Hfe). by rewrite (bind_Raise _ _ _ _ _ Hmk).
Qed.

(** C5.  With an existing clump in the container, a clump is made, and its
    coord list is the very list object of the existing clump when bones are
    not exported; its model list and group list are those of the existing
    clump when meshes are not exported; the objects of the heap are not
    touched.  Without an existing clump, [make_clump] raises in either case.
    An export that raises has written nothing, an export that returns has
    written once, at the end; and when [make_clump] raises for an armature,
    the export raises there. *)
Theorem reuse_or_fail settings arm s :
  (forall old rest,
     inject_to_xfbin settings = true ->
     get_chunk_page (xfbin s) (cd_path (xfbin_clump_data arm))
                    (strip_clump_suffix (armature_name arm)) = Some (old :: rest) ->
     exists s' clump,
       make_clump settings arm s = (s', Return clump)
       ∧ (export_bones settings = false -> coord_chunks clump = coord_chunks old)
       ∧ (export_meshes settings = false ->
            model_chunks clump = model_chunks old ∧ model_groups clump = model_groups old)
       ∧ keeps_heap s s')
  ∧ (inject_to_xfbin settings = false
     ∨ get_chunk_page (xfbin s) (cd_path (xfbin_clump_data arm))
                      (strip_clump_suffix (armature_name arm)) = None ->
     (export_bones settings = false ->
        make_clump settings arm s = (s, Raise "Cannot export bones."))
     ∧ (export_bones settings = true -> export_meshes settings = false ->
          exists s', make_clump settings arm s = (s', Raise "Cannot export meshes.")
                     ∧ events s' = events s ∧ xfbin s' = xfbin s))
  ∧ (forall filepath armatures,
       exists evs, Forall (fun e => ¬ is_write e) evs
         ∧ match (run_export filepath settings armatures).2 with
           | Return _ =>
               events (run_export filepath settings armatures).1
               = evs ++ [WriteXfbin (xfbin (run_export filepath settings armatures).1) filepath]
           | Raise _ => events (run_export filepath settings armatures).1 = evs
           end)
  ∧ (forall filepath before after s1 s2 msg,
       inject_to_xfbin settings = true -> isfile filepath = true ->
       for_each before (export_armature settings)
         (mkState (read_xfbin filepath).1 (read_xfbin filepath).2 []) = (s1, Return tt) ->
       make_clump settings arm
         (for_each (cd_texture_chunks (xfbin_clump_data arm)) export_texture_chunk s1).1
       = (s2, Raise msg) ->
       run_export filepath settings (before ++ arm :: after) = (s2, Raise msg)).
Proof.
  split_and!.
  - intros old rest. apply make_clump_reuse.
  - apply make_clump_fatal.
  - intros filepath armatures.
    apply (run_export_events (fun e => ¬ is_write e));
      [intros d [] | intros chunk _ [] | intros clump []].
  - intros filepath before after s1 s2 msg Hinject Hfile Hbefore Hraise.
    unfold exporter.run_export, exporter.export_collection.
    rewrite Hinject, Hfile. unfold bind at 1.
    apply bind_Raise. eapply for_each_raises; [exact Hbefore|].
    by apply export_armature_raises.
Qed.

End export_facts.

(** C7 fails as stated on the bare magic: the four bytes [NTP3] start with
    [NTP3], and the chunk is not added; only the message is printed. *)
Lemma bare_magic_is_skipped :
  take 4 exporter.NTP3 = exporter.NTP3
  ∧ exporter.export_texture_chunk (fun x _ => x) (fun _ => true) (fun _ => exporter.NTP3)
      samples.texture samples.start
    = (exporter.mkState tt ∅ [exporter.Print (exporter.NutNotValid "tex")], exporter.Return tt).
Proof. split; reflexivity. Qed.

(** C5 on a sample: the armature ["Foo [C]"] gets the three list objects of
    the clump ["Foo"] of the container, and the heap stays as it was; the
    export of ["Bar [C]"], which the container does not have, raises with
    nothing written. *)
Lemma reuse_or_fail_sample :
  (exists s' clump,
     exporter.make_clump 10 10 (fun _ => 0%Z) samples.lookup_clump
       samples.keep_everything (samples.armature "Foo [C]") samples.disk_state
     = (s', exporter.Return clump)
     ∧ exporter.coord_chunks clump = exporter.coord_chunks samples.old_foo
     ∧ exporter.model_chunks clump = exporter.model_chunks samples.old_foo
     ∧ exporter.model_groups clump = exporter.model_groups samples.old_foo
     ∧ exporter.keeps_heap samples.disk_state s')
  ∧ exporter.run_export 10 10 (fun _ => 0%Z) [] (fun _ => ([samples.old_foo], samples.disk_heap))
      (fun x _ => x) (fun x c => c :: x) samples.lookup_clump (fun _ => true) (fun _ => [])
      "models.xfbin" samples.keep_everything ([] ++ samples.armature "Bar [C]" :: [])
    = (samples.disk_state, exporter.Raise "Cannot export bones.").
Proof.
  split.
  - destruct (reuse_or_fail 10 10 (fun _ => 0%Z) [] (fun _ => ([samples.old_foo], samples.disk_heap))
                (fun x _ => x) (fun x c => c :: x) samples.lookup_clump (fun _ => true) (fun _ => [])
                samples.keep_everything (samples.armature "Foo [C]") samples.disk_state)
      as (Hreuse & _).
    destruct (Hreuse samples.old_foo [] eq_refl eq_refl) as (s' & clump & Hmk & Hb & Hm & Hk).
    exists s', clump. destruct (Hm eq_refl) as [Hm1 Hm2].
    split_and!; [exact Hmk | exact (Hb eq_refl) | exact Hm1 | exact Hm2 | exact Hk].
  - destruct (reuse_or_fail 10 10 (fun _ => 0%Z) [] (fun _ => ([samples.old_foo], samples.disk_heap))
                (fun x _ => x) (fun x c => c :: x) samples.lookup_clump (fun _ => true) (fun _ => [])
                samples.keep_everything (samples.armature "Bar [C]") samples.disk_state)
      as (_ & Hfatal & _ & Hraise).
    apply (Hraise "models.xfbin"%string [] [] samples.disk_state samples.disk_state);
      [reflexivity | reflexivity | reflexivity |].
    destruct (Hfatal (or_intror eq_refl)) as [Hbones _].
    exact (Hbones eq_refl).
Defined.

(** ** The bone weights of a vertex *)

Section weight_facts.
Import exporter.


Section sorted_facts.
Context {A : Type} (key : A -> float).

(** [a] may stand before [b]: the key of [b] is not smaller. *)
Local Notation before := (fun a b : A => flt (key b) (key a) = false).






End sorted_facts.

Implicit Types (cid : gmap string nat) (items : list (string * float)).



End weight_facts.

(** C3 fails on small weights.  The keys [1 - w] of the weights [2 ** -60]
    and [2 ** -55] are both [1.0], so the five items stay in the order they
    came in: the first four are kept and the heaviest, ["E"], is dropped. *)
Lemma heaviest_influence_is_dropped :
  let w60 := dyadic 1 (-60) in
  let w55 := dyadic 1 (-55) in
  let quarter := Float (dyadic 1 (-2)) in
  flt w60 w55 = true
  ∧ fsub (of_int 1) w60 = f1 ∧ fsub (of_int 1) w55 = f1
  ∧ exporter.bone_ids_and_weights (exporter.index_dict ["A"; "B"; "C"; "D"; "E"]%string)
      [("A", w60); ("B", w60); ("C", w60); ("D", w60); ("E", w55)]%string
    = ([0; 1; 2; 3], [quarter; quarter; quarter; quarter]).
Proof. vm_compute. repeat split. Qed.

(** The same on two items: the lighter one comes out first. *)
Lemma lighter_influence_comes_first :
  let w60 := dyadic 1 (-60) in
  let w59 := dyadic 1 (-59) in
  exists a b,
    exporter.bone_ids_and_weights (exporter.index_dict ["A"; "B"]%string)
      [("A", w60); ("B", w59)]%string
    = ([0; 1; 0; 0], [Float a; Float b; Float f0; Float f0])
    ∧ flt a b = true.
Proof. do 2 eexists. vm_compute. split; reflexivity. Qed.

(** ** The importer: world matrices of the bones *)

Section importer_facts.
Import importer.
Variable to_matrix : vec3 -> matrix.

Lemma CoordNode_forall_ind (P : CoordNode -> Prop) :
  (forall name position rotation scale unkFloat unkShort children,
     Forall P children ->
     P (mkCoordNode name position rotation scale unkFloat unkShort children)) ->
  forall node, P node.
Proof.
  intros Hnode. fix IH 1. intros [name position rotation scale unkFloat unkShort children].
  apply Hnode. induction children as [|c cs IHcs]; constructor; [apply IH | exact IHcs].
Qed.

(** One call of [make_bone]: the bone is made, then the children. *)
Lemma make_bone_unfold parent name position rotation scale unkFloat unkShort children st :
  make_bone to_matrix parent
    (mkCoordNode name position rotation scale unkFloat unkShort children) st
  = (parent_matrix ← match parent with
                     | Some p => bone_matrices st !! p
                     | None => Some Identity4
                     end;
     let m := this_bone_matrix to_matrix parent_matrix position rotation scale in
     make_bones to_matrix (Some name) children
       (mkArmatureState (<[name := m]> (bone_matrices st))
          (edit_bones st
             ++ [mkEditBone name m parent (scale_signs_of scale) unkFloat unkShort]))).
Proof.
  cbn [make_bone]. destruct (match parent with Some p => _ | None => _ end) as [pm|]; [|done].
  cbn [mbind option_bind]. generalize (mkArmatureState
    (<[name := this_bone_matrix to_matrix pm position rotation scale]> (bone_matrices st))
    (edit_bones st ++
       [mkEditBone name (this_bone_matrix to_matrix pm position rotation scale) parent
          (scale_signs_of scale) unkFloat unkShort])).
  induction children as [|c cs IH]; intros st'; [done|].
  cbn [make_bones]. destruct (make_bone to_matrix (Some name) c st') as [st1|]; [|done].
  cbn [mbind option_bind]. apply IH.
Qed.

(** What a call of [make_bone] does, for a parent whose matrix is in the
    dict: the bones of the subtree are appended with their world matrices,
    and the dict changes at the names of the subtree only. *)
Definition make_bone_ok (node : CoordNode) : Prop :=
  forall parent parent_world st,
    match parent with
    | Some p => bone_matrices st !! p = Some parent_world
    | None => parent_world = Identity4
    end ->
    NoDup (node_names node) ->
    exists st',
      make_bone to_matrix parent node st = Some st'
      ∧ edit_bones st'
        = edit_bones st ++ world_bones (local_abs to_matrix) parent parent_world node
      ∧ forall k, k ∉ node_names node -> bone_matrices st' !! k = bone_matrices st !! k.

Lemma make_bones_spec (nodes : list CoordNode) :
  Forall make_bone_ok nodes ->
  forall parent parent_world st,
    match parent with
    | Some p => bone_matrices st !! p = Some parent_world ∧ p ∉ flat_map node_names nodes
    | None => parent_world = Identity4
    end ->
    NoDup (flat_map node_names nodes) ->
    exists st',
      make_bones to_matrix parent nodes st = Some st'
      ∧ edit_bones st'
        = edit_bones st
          ++ flat_map (world_bones (local_abs to_matrix) parent parent_world) nodes
      ∧ forall k, k ∉ flat_map node_names nodes ->
                  bone_matrices st' !! k = bone_matrices st !! k.
Proof.
  induction 1 as [|n nodes Hn _ IH]; intros parent parent_world st Hparent Hnodup.
  - exists st. simpl. by rewrite app_nil_r.
  - cbn [flat_map] in Hnodup, Hparent. apply NoDup_app in Hnodup as (Hn1 & Hdisj & Hn2).
    destruct (Hn parent parent_world st) as (st1 & Hmk & Hbones & Hframe); [|done|].
    { destruct parent; [by destruct Hparent|done]. }
    destruct (IH parent parent_world st1) as (st2 & Hmk2 & Hbones2 & Hframe2); [|done|].
    { destruct parent as [p|]; [|done]. destruct Hparent as [Hp Hnotin].
      apply not_elem_of_app in Hnotin as [Hp1 Hp2]. split; [|done]. by rewrite Hframe. }
    exists st2. cbn [make_bones flat_map]. rewrite Hmk. cbn [mbind option_bind].
    split_and!; [done | by rewrite Hbones2, Hbones, <- (assoc_L (++)) |].
    intros k [Hk1 Hk2]%not_elem_of_app. by rewrite Hframe2, Hframe.
Qed.

Lemma make_bone_spec (node : CoordNode) : make_bone_ok node.
Proof.
  induction node as [name position rotation scale unkFloat unkShort children IH]
    using CoordNode_forall_ind.
  intros parent parent_world st Hparent Hnodup.
  cbn [node_names] in Hnodup. apply NoDup_cons in Hnodup as [Hname Hnodup].
  rewrite make_bone_unfold.
  assert (match parent with
          | Some p => bone_matrices st !! p
          | None => Some Identity4
          end = Some parent_world) as -> by (destruct parent; congruence).
  cbn [mbind option_bind]. cbv zeta.
  set (m := this_bone_matrix to_matrix parent_world position rotation scale).
  destruct (make_bones_spec children IH (Some name) m
              (mkArmatureState (<[name := m]> (bone_matrices st))
                 (edit_bones st
                    ++ [mkEditBone name m parent (scale_signs_of scale) unkFloat unkShort])))
    as (st' & Hmk & Hbones & Hframe); [|done|].
  { split; [apply lookup_insert_eq | done]. }
  exists st'. split_and!; [done | |].
  - rewrite Hbones. cbn [edit_bones world_bones]. by rewrite <- (assoc_L (++)).
  - intros k Hk. cbn [node_names] in Hk. apply not_elem_of_cons in Hk as [Hne Hk].
    rewrite Hframe by done. cbn [bone_matrices]. by rewrite lookup_insert_ne.
Qed.

(** C2, as the importer behaves.  For a forest of nodes with different names,
    [make_armature] makes one bone per node, parents first, and the matrix
    of each bone is the matrix of its parent bone (the identity for a root)
    times [Translation(pos) @ rotation @ Diagonal(abs(scale))]: the scale
    enters with its absolute value, and its signs are only stored with the
    bone. *)
Theorem bones_get_world_matrices (root_nodes : list CoordNode) :
  NoDup (flat_map node_names root_nodes) ->
  exists st,
    make_armature to_matrix root_nodes = Some st
    ∧ edit_bones st
      = flat_map (world_bones (local_abs to_matrix) None Identity4) root_nodes.
Proof.
  intros Hnodup. unfold make_armature.
  destruct (make_bones_spec root_nodes
              (proj2 (Forall_forall _ _) (fun n _ => make_bone_spec n))
              None Identity4 (mkArmatureState ∅ []) eq_refl Hnodup)
    as (st & Hmk & Hbones & _).
  exists st. by split.
Qed.

End importer_facts.

(** A witness for [bones_get_world_matrices]: a root, its two children and a
    grandchild. *)
Lemma bones_get_world_matrices_witness :
  exists st,
    importer.make_armature importer.euler_zyx_to_matrix samples.small_forest = Some st
    ∧ importer.edit_bones st
      = flat_map (importer.world_bones (importer.local_abs importer.euler_zyx_to_matrix)
                    None importer.Identity4) samples.small_forest.
Proof.
  apply (bones_get_world_matrices importer.euler_zyx_to_matrix samples.small_forest).
  cbn. repeat (apply NoDup_cons; split; [set_solver|]). apply NoDup_nil_2.
Defined.

Section importer_sample.
Import importer.
Local Open Scope R_scope.

Lemma sign_of_neg (x : R) : x < 0 -> sign_of x = (-1)%Z.
Proof. intros Hx. unfold sign_of. by destruct (Rlt_dec x 0). Qed.

Lemma sign_of_nonneg (x : R) : 0 <= x -> sign_of x = 1%Z.
Proof. intros Hx. unfold sign_of. destruct (Rlt_dec x 0); [lra | done]. Qed.

(** The rotation by the angles [(0, 0, 0)] is the identity. *)
Lemma euler_zero : to_4x4 (euler_zyx_to_matrix (rot_to_blender (0, 0, 0))) = Identity4.
Proof.
  unfold rot_to_blender, vec3_map, radians, euler_zyx_to_matrix, rot_x, rot_y, rot_z.
  rewrite Rmult_0_l, cos_0, sin_0.
  unfold to_4x4, matmul3, dot, column, Identity4. cbn.
  repeat (f_equal; try lra).
Qed.

(** C2 fails as stated on a mirrored root: the stored scale is [(-1, 1, 1)],
    the bone gets the matrix with 1 in its first entry, where the scale with
    its signs applied again would give -1; the signs are kept with the bone. *)
Lemma scale_signs_are_not_reapplied :
  exists st b,
    make_armature euler_zyx_to_matrix [samples.mirrored_root] = Some st
    ∧ edit_bones st = [b]
    ∧ entry (bone_matrix b) 0 0 = 1
    ∧ entry (matmul Identity4 (local_signed euler_zyx_to_matrix (0, 0, 0) (0, 0, 0) (-1, 1, 1)))
            0 0 = -1
    ∧ bone_scale_signs b = ((-1)%Z, 1%Z, 1%Z).
Proof.
  eexists _, _. split; [reflexivity|]. split; [reflexivity|].
  assert (Rabs (-1) = 1) as Habs by (rewrite Rabs_left; lra).
  cbn [bone_matrix bone_scale_signs].
  unfold this_bone_matrix, local_signed, compose. rewrite euler_zero.
  unfold scale_signs_of, vec3_map, pos_cm_to_m.
  rewrite (sign_of_neg (-1)), (sign_of_nonneg 1), Habs, Rabs_R1 by lra.
  split_and!.
  - unfold entry, matmul, dot, column, Identity4, Translation, Diagonal4, vec3_map. cbn. lra.
  - unfold entry, matmul, dot, column, Identity4, Translation, Diagonal4, vec3_map. cbn. lra.
  - done.
Qed.

End importer_sample.

(** ** Floats: subtractions that are exact *)

Section float_facts.
Import py.
Local Open Scope Z_scope.

(** [SpecFloat.iter_pos f n] applies [f] [n] times. *)
Lemma iter_pos_nat {A} (f : A -> A) (n : positive) (x : A) :
  SpecFloat.iter_pos f n x = Nat.iter (Pos.to_nat n) f x.
Proof.
  revert x. induction n as [n IH|n IH|]; intros x; cbn [SpecFloat.iter_pos].
  - rewrite !IH, <- Nat.iter_add, <- Nat.iter_succ_r. f_equal. lia.
  - rewrite !IH, <- Nat.iter_add. f_equal. lia.
  - done.
Qed.






(** The number of binary digits. *)
Lemma digits2_pos_bounds (m : positive) :
  2 ^ (Zpos (digits2_pos m) - 1) <= Zpos m < 2 ^ Zpos (digits2_pos m).
Proof.
  induction m as [m IH|m IH|]; simpl digits2_pos.
  - pose proof (Pos2Z.is_pos (digits2_pos m)).
    rewrite Pos2Z.inj_succ, (Pos2Z.inj_xI m).
    replace (Z.succ (Zpos (digits2_pos m)) - 1) with (Z.succ (Zpos (digits2_pos m) - 1)) by lia.
    rewrite !Z.pow_succ_r by lia. lia.
  - pose proof (Pos2Z.is_pos (digits2_pos m)).
    rewrite Pos2Z.inj_succ, (Pos2Z.inj_xO m).
    replace (Z.succ (Zpos (digits2_pos m)) - 1) with (Z.succ (Zpos (digits2_pos m) - 1)) by lia.
    rewrite !Z.pow_succ_r by lia. lia.
  - simpl. lia.
Qed.

Lemma digits2_pos_unique (m : positive) (d : Z) :
  2 ^ (d - 1) <= Zpos m < 2 ^ d -> Zpos (digits2_pos m) = d.
Proof.
  intros [Hlo Hhi]. destruct (digits2_pos_bounds m) as [Hlo' Hhi'].
  assert (0 < d).
  { destruct (Z.lt_trichotomy d 0) as [Hd|[->|Hd]]; [|simpl in Hhi; lia|done].
    rewrite Z.pow_neg_r in Hhi by done. lia. }
  assert (d - 1 < Zpos (digits2_pos m)) by (apply (Z.pow_lt_mono_r_iff 2); lia).
  assert (Zpos (digits2_pos m) - 1 < d) by (apply (Z.pow_lt_mono_r_iff 2); lia).
  lia.
Qed.


Lemma digits2_pos_le (m : positive) (n : Z) :
  Zpos m < 2 ^ n -> Zpos (digits2_pos m) <= n.
Proof.
  intros Hm. destruct (digits2_pos_bounds m) as [Hlo _].
  assert (Zpos (digits2_pos m) - 1 < n); [|lia].
  destruct (Z.lt_ge_cases n 0) as [Hn|Hn]; [rewrite Z.pow_neg_r in Hm by done; lia|].
  apply (Z.pow_lt_mono_r_iff 2); lia.
Qed.










End float_facts.



(** The same happens for the float [0.1]: [1.0 - (1.0 - 0.1)] is
    [0.09999999999999998]. *)
Lemma uv_flip_twice_loses_tenth :
  let tenth := py.fdiv (py.of_int 1) (py.of_int 10) in
  tenth = S754_finite false 7205759403792794 (-56)
  ∧ coordinate_converter.uv_to_blender (coordinate_converter.uv_from_blender (py.f0, tenth))
    = (py.f0, S754_finite false 7205759403792792 (-56)).
Proof. vm_compute. repeat split. Qed.

(** ** Positions, over the reals

    Without rounding the two scalings undo each other; the single precision
    arithmetic of [mathutils] follows below. *)
Lemma pos_scalings_inverse_over_reals (pos : coordinate_converter.vec3) :
  coordinate_converter.pos_m_to_cm (coordinate_converter.pos_cm_to_m pos) = pos
  ∧ coordinate_converter.pos_cm_to_m (coordinate_converter.pos_m_to_cm pos) = pos.
Proof.
  destruct pos as [[x y] z].
  unfold coordinate_converter.pos_m_to_cm, coordinate_converter.pos_cm_to_m,
    coordinate_converter.vec3_map.
  split; repeat f_equal; lra.
Qed.

(** ** Positions in single precision *)

Section single_facts.
Local Open Scope Z_scope.

(** *** Rounding a mantissa *)

(** What [k] steps of [shr_1] make of the mantissa [M]: the mantissa without
    its last [k] bits, the last bit taken off, and whether a lower bit was
    set. *)
Definition shifted (M k : Z) (mrs : shr_record) : Prop :=
  0 <= shr_m mrs
  ∧ exists rest, 0 <= rest < 2 ^ k
      ∧ 2 * M = shr_m mrs * 2 ^ (k + 1) + (if shr_r mrs then 2 ^ k else 0) + rest
      ∧ (shr_s mrs = true <-> 0 < rest).

Lemma shifted_0 (M : Z) : 0 <= M -> shifted M 0 (Build_shr_record M false false).
Proof.
  intros HM. split; [done|]. exists 0. cbn. split_and!; [lia | lia | lia | ].
  split; [done | lia].
Qed.

Lemma shifted_step (M k : Z) (mrs : shr_record) :
  0 <= k -> shifted M k mrs -> shifted M (k + 1) (shr_1 mrs).
Proof.
  intros Hk (Hm & rest & Hrest & HM & Hs). destruct mrs as [m r s]. cbn in Hm, HM, Hs.
  assert (0 < 2 ^ k) as HP by (apply Z.pow_pos_nonneg; lia).
  assert (2 ^ (k + 1) = 2 * 2 ^ k) as E1 by (rewrite Z.pow_add_r by lia; lia).
  assert (2 ^ (k + 1 + 1) = 4 * 2 ^ k) as E2 by (rewrite !Z.pow_add_r by lia; lia).
  assert (forall (m' : Z) (r' : bool),
            0 <= m' ->
            2 * M = m' * (4 * 2 ^ k) + (if r' then 2 * 2 ^ k else 0)
                    + ((if r then 2 ^ k else 0) + rest) ->
            shifted M (k + 1) (Build_shr_record m' r' (r || s))) as Hgoal.
  { intros m' r' Hm' HM'. split; [done|].
    exists ((if r then 2 ^ k else 0) + rest). cbn [shr_m shr_r shr_s]. rewrite E1, E2.
    split_and!; [destruct r; lia | destruct r; lia | exact HM' |].
    destruct r, s; cbn; (split; [intros Hr | intros Hr]); try done; lia. }
  rewrite E1 in HM. set (P := 2 ^ k) in *. clearbody P.
  destruct m as [|p|p]; [| |lia].
  - cbn [shr_1]. apply Hgoal; [lia|]. lia.
  - destruct p as [p|p|]; cbn [shr_1]; apply Hgoal; lia.
Qed.

Lemma shifted_iter (M : Z) (n : nat) :
  0 <= M -> shifted M (Z.of_nat n) (Nat.iter n shr_1 (Build_shr_record M false false)).
Proof.
  intros HM. induction n as [|n IH]; [by apply shifted_0|].
  rewrite Nat.iter_succ, Nat2Z.inj_succ, <- Z.add_1_r. apply shifted_step; [lia | exact IH].
Qed.

(** Rounding to nearest, ties to even, after a shift by [n]: the result is
    at most half a unit away from the mantissa. *)
Lemma round_shifted (M n : Z) (mrs : shr_record) :
  0 <= n -> shifted M n mrs ->
  let N := round_nearest_even (shr_m mrs) (loc_of_shr_record mrs) in
  0 <= N ∧ - 2 ^ n <= 2 * (N * 2 ^ n - M) <= 2 ^ n.
Proof.
  intros Hn (Hm & rest & Hrest & HM & Hs). destruct mrs as [m r s]. cbn in *.
  assert (0 < 2 ^ n) as HP by (apply Z.pow_pos_nonneg; lia).
  assert (2 ^ (n + 1) = 2 * 2 ^ n) as E1 by (rewrite Z.pow_add_r by lia; lia).
  rewrite E1 in HM. set (P := 2 ^ n) in *. clearbody P.
  destruct r, s; cbn.
  - assert (0 < rest) by by apply Hs. split; lia.
  - assert (rest = 0) as ->.
    { destruct (Z.lt_trichotomy rest 0) as [?|[?|Hpos]]; [lia | done |].
      apply Hs in Hpos. done. }
    destruct (Z.even m); split; lia.
  - assert (0 < rest) by by apply Hs. split; lia.
  - assert (rest = 0) as ->.
    { destruct (Z.lt_trichotomy rest 0) as [?|[?|Hpos]]; [lia | done |].
      apply Hs in Hpos. done. }
    split; lia.
Qed.

Lemma fexp_single (x : Z) : fexp 24 128 x = Z.max (x - 24) (-149).
Proof. reflexivity. Qed.

Lemma shr_none (mrs : shr_record) (e n : Z) : n <= 0 -> shr mrs e n = (mrs, e).
Proof. intros Hn. unfold shr. destruct n; [done | lia | done]. Qed.

(** The number with the sign [s] and the value [N * 2 ** e], for a mantissa
    [N] of at most 24 bits or [2 ** 24]. *)
Definition represents (r : spec_float) (s : bool) (N e : Z) : Prop :=
  (N = 0 ∧ r = S754_zero s)
  ∨ (exists m : positive, Zpos m = N ∧ N < 2 ^ 24 ∧ r = S754_finite s m e)
  ∨ (N = 2 ^ 24 ∧ r = S754_finite s 8388608 (e + 1)).

(** The rounding of [M * 2 ** E] when the format has fewer bits than [M]. *)
Lemma round_aux_spec (s : bool) (M : positive) (E : Z) :
  let e' := fexp 24 128 (Zpos (digits2_pos M) + E) in
  E < e' -> e' + 1 <= 104 ->
  exists N, 0 <= N
    ∧ - 2 ^ (e' - E) <= 2 * (N * 2 ^ (e' - E) - Zpos M) <= 2 ^ (e' - E)
    ∧ represents (binary_round_aux 24 128 s (Zpos M) E loc_Exact) s N e'.
Proof.
  intros e' Hlt Hmax.
  assert (-149 <= e') as Hmin by (unfold e'; rewrite fexp_single; lia).
  assert (Zpos (digits2_pos M) + E - 24 <= e') as Hdig by (unfold e'; rewrite fexp_single; lia).
  unfold binary_round_aux, shr_fexp. cbn [Zdigits2]. fold e'.
  destruct (e' - E) as [|pn|pn] eqn:Hn; [lia | | lia].
  cbn [shr shr_record_of_loc]. rewrite iter_pos_nat.
  pose proof (shifted_iter (Zpos M) (Pos.to_nat pn) ltac:(lia)) as Hsh.
  rewrite positive_nat_Z in Hsh.
  set (mrs := Nat.iter (Pos.to_nat pn) shr_1 _) in *. clearbody mrs.
  destruct (round_shifted (Zpos M) (Zpos pn) mrs ltac:(lia) Hsh) as [HN0 HN].
  set (N := round_nearest_even (shr_m mrs) (loc_of_shr_record mrs)) in *. clearbody N.
  replace (E + Zpos pn) with e' by lia.
  assert (N <= 2 ^ 24) as HN24.
  { destruct (digits2_pos_bounds M) as [_ Hhi].
    assert (2 ^ Zpos (digits2_pos M) <= 2 ^ (Zpos pn + 24)) as Hpow
      by (apply Z.pow_le_mono_r; lia).
    rewrite Z.pow_add_r in Hpow by lia.
    assert (0 < 2 ^ Zpos pn) by (apply Z.pow_pos_nonneg; lia).
    change (2 ^ 24) with 16777216 in *. nia. }
  exists N. split; [done|]. split; [done|].
  destruct (Z.eq_dec N 0) as [->|HNz].
  - left. split; [done|]. cbn [Zdigits2]. rewrite shr_none by (rewrite fexp_single; lia).
    done.
  - destruct (Z.eq_dec N (2 ^ 24)) as [->|HNc].
    + right. right. split; [done|]. change (2 ^ 24) with 16777216.
      change (Zdigits2 16777216) with 25. rewrite fexp_single.
      replace (Z.max (25 + e' - 24) (-149) - e') with 1 by lia.
      cbn. change (128 - 24) with 104.
      replace (e' + 1 <=? 104) with true by (symmetry; apply Z.leb_le; lia). done.
    + right. left. destruct N as [|pN|pN]; [done | | lia].
      exists pN. split; [done|]. split; [lia|].
      cbn [Zdigits2]. pose proof (digits2_pos_le pN 24 ltac:(lia)) as Hd.
      rewrite shr_none by (rewrite fexp_single; lia). cbn. change (128 - 24) with 104.
      replace (e' <=? 104) with true by (symmetry; apply Z.leb_le; lia). done.
Qed.

(** *** The two scalars *)

Import coordinate_converter_single.

Lemma scalar_0_01 :
  single.of_double literal_0_01 = S754_finite false 10737418 (-30).
Proof. vm_compute. reflexivity. Qed.

Lemma scalar_100 :
  single.of_double literal_100 = S754_finite false 13107200 (-17).
Proof. vm_compute. reflexivity. Qed.

Lemma fmul_finite (s : bool) (m k : positive) (e ek : Z) :
  single.fmul (S754_finite s m e) (S754_finite false k ek)
  = binary_round_aux 24 128 s (Zpos m * Zpos k) (e + ek) loc_Exact.
Proof. unfold single.fmul, SFmul. by rewrite xorb_false_r. Qed.

(** [x * 0.01 * 100] in single precision. *)
Definition there_and_back (x : single.float) : single.float :=
  single.fmul (single.fmul x (single.of_double literal_0_01)) (single.of_double literal_100).

Lemma represents_ticks (r : spec_float) (s : bool) (N e : Z) :
  represents r s N e -> -149 <= e ->
  single.is_finite r = true
  ∧ single.ticks r = (if s then -1 else 1) * (N * 2 ^ (e + 149)).
Proof.
  intros [ [-> ->] | [ (m & <- & _ & ->) | [-> ->] ] ] He; cbn [single.is_finite single.ticks].
  - split; [done | by destruct s].
  - done.
  - split; [done|]. f_equal. replace (e + 1 + 149) with (e + 149 + 1) by lia.
    rewrite Z.pow_add_r by lia. change (2 ^ 24) with 16777216. lia.
Qed.

(** The second product, by 100. *)
Lemma times_100 (s : bool) (m1 : positive) (e1 d2 : Z) :
  2 ^ (d2 - 1) <= Zpos m1 * 13107200 < 2 ^ d2 ->
  24 < d2 -> -149 <= e1 + (d2 - 41) <= 103 ->
  exists N2, 0 <= N2
    ∧ - 2 ^ (d2 - 24) <= 2 * (N2 * 2 ^ (d2 - 24) - Zpos m1 * 13107200) <= 2 ^ (d2 - 24)
    ∧ represents (single.fmul (S754_finite s m1 e1) (S754_finite false 13107200 (-17)))
                 s N2 (e1 + (d2 - 41)).
Proof.
  intros Hbound Hd2 He. rewrite fmul_finite.
  pose proof (round_aux_spec s (m1 * 13107200) (e1 + -17)) as H. cbv zeta in H.
  rewrite (digits2_pos_unique (m1 * 13107200) d2) in H
    by (rewrite Pos2Z.inj_mul; exact Hbound).
  rewrite Pos2Z.inj_mul, fexp_single in H.
  replace (Z.max (d2 + (e1 + -17) - 24) (-149)) with (e1 + (d2 - 41)) in H by lia.
  replace (e1 + (d2 - 41) - (e1 + -17)) with (d2 - 24) in H by lia.
  apply H; lia.
Qed.

Lemma ticks_close (s : bool) (a b c Q : Z) :
  Z.abs (a - b) <= c -> 0 <= Q ->
  Z.abs ((if s then -1 else 1) * (a * Q) - (if s then -1 else 1) * (b * Q)) <= c * Q.
Proof.
  intros Hab HQ.
  replace ((if s then -1 else 1) * (a * Q) - (if s then -1 else 1) * (b * Q))
    with ((if s then -1 else 1) * (a - b) * Q) by (destruct s; lia).
  rewrite !Z.abs_mul, (Z.abs_eq Q) by done.
  replace (Z.abs (if s then -1 else 1)) with 1 by (by destruct s).
  rewrite Z.mul_1_l. by apply Z.mul_le_mono_nonneg_r.
Qed.

Lemma there_and_back_normal (s : bool) (m : positive) (e : Z) :
  2 ^ 23 <= Zpos m < 2 ^ 24 -> -142 <= e <= 100 ->
  single.is_finite (there_and_back (S754_finite s m e)) = true
  ∧ Z.abs (single.ticks (there_and_back (S754_finite s m e))
           - single.ticks (S754_finite s m e)) <= 2 ^ (e + 149).
Proof.
  change (2 ^ 23) with 8388608. change (2 ^ 24) with 16777216.
  intros Hm He. unfold there_and_back. rewrite scalar_0_01, scalar_100, fmul_finite.
  assert (0 < 2 ^ (e + 148)) as HQ by (apply Z.pow_pos_nonneg; lia).
  assert (2 ^ (e + 149) = 2 * 2 ^ (e + 148)) as HPQ.
  { replace (e + 149) with (e + 148 + 1) by lia. rewrite Z.pow_add_r by lia. lia. }
  (* the first product *)
  assert (exists d1, (d1 = 47 ∨ d1 = 48)
            ∧ 2 ^ (d1 - 1) <= Zpos m * 10737418 < 2 ^ d1) as (d1 & Hd1 & Hbound1).
  { destruct (Z.lt_ge_cases (Zpos m * 10737418) (2 ^ 47)) as [Hlt|Hge].
    - exists 47. split; [by left|]. change (2 ^ (47 - 1)) with 70368744177664.
      change (2 ^ 47) with 140737488355328 in *. lia.
    - exists 48. split; [by right|]. change (2 ^ (48 - 1)) with 140737488355328.
      change (2 ^ 47) with 140737488355328 in *. change (2 ^ 48) with 281474976710656. lia. }
  pose proof (round_aux_spec s (m * 10737418) (e + -30)) as H1. cbv zeta in H1.
  rewrite (digits2_pos_unique (m * 10737418) d1) in H1
    by (rewrite Pos2Z.inj_mul; exact Hbound1).
  rewrite Pos2Z.inj_mul, fexp_single in H1.
  replace (Z.max (d1 + (e + -30) - 24) (-149)) with (e + (d1 - 54)) in H1 by lia.
  replace (e + (d1 - 54) - (e + -30)) with (d1 - 24) in H1 by lia.
  destruct H1 as (N1 & HN1 & Hr1 & Hrep1); [lia | lia |].
  set (y := binary_round_aux 24 128 s (Zpos m * 10737418) (e + -30) loc_Exact) in *.
  clearbody y.
  (* the second product *)
  assert (exists d2 N2,
            (d2 = 47 ∨ d2 = 48) ∧ 0 <= N2
            ∧ represents (single.fmul y (S754_finite false 13107200 (-17))) s N2
                         (e + (d1 + d2 - 95))
            ∧ ((d1 + d2 = 94 ∧ Z.abs (N2 - 2 * Zpos m) <= 2)
               ∨ (d1 + d2 = 95 ∧ Z.abs (N2 - Zpos m) <= 1)))
    as (d2 & N2 & Hd2 & HN2 & Hrep2 & Hclose).
  { destruct Hrep1 as [ [-> ->] | [ (m1 & Hm1 & Hlt1 & ->) | [-> ->] ] ].
    - exfalso. destruct Hd1 as [-> | ->].
      + change (2 ^ (47 - 24)) with 8388608 in *. lia.
      + change (2 ^ (48 - 24)) with 16777216 in *. lia.
    - change (2 ^ 24) with 16777216 in Hlt1.
      destruct (Z.lt_ge_cases (Zpos m1 * 13107200) (2 ^ 47)) as [Hlt|Hge].
      + change (2 ^ 47) with 140737488355328 in Hlt.
        destruct (times_100 s m1 (e + (d1 - 54)) 47) as (N2 & HN2 & Hr2 & Hrep2).
        * change (2 ^ (47 - 1)) with 70368744177664. change (2 ^ 47) with 140737488355328.
          destruct Hd1 as [-> | ->].
          -- change (2 ^ (47 - 24)) with 8388608 in *. lia.
          -- change (2 ^ (48 - 24)) with 16777216 in *. lia.
        * lia.
        * lia.
        * exists 47, N2. split; [by left|]. split; [done|].
          replace (e + (d1 + 47 - 95)) with (e + (d1 - 54) + (47 - 41)) by lia.
          split; [done|]. change (2 ^ (47 - 24)) with 8388608 in *.
          destruct Hd1 as [-> | ->].
          -- left. split; [done|]. change (2 ^ (47 - 24)) with 8388608 in *. lia.
          -- right. split; [done|]. change (2 ^ (48 - 24)) with 16777216 in *. lia.
      + change (2 ^ 47) with 140737488355328 in Hge.
        destruct (times_100 s m1 (e + (d1 - 54)) 48) as (N2 & HN2 & Hr2 & Hrep2).
        * change (2 ^ (48 - 1)) with 140737488355328. change (2 ^ 48) with 281474976710656.
          lia.
        * lia.
        * lia.
        * exists 48, N2. split; [by right|]. split; [done|].
          replace (e + (d1 + 48 - 95)) with (e + (d1 - 54) + (48 - 41)) by lia.
          split; [done|]. change (2 ^ (48 - 24)) with 16777216 in *.
          destruct Hd1 as [-> | ->].
          -- right. split; [done|]. change (2 ^ (47 - 24)) with 8388608 in *. lia.
          -- exfalso. lia.
    - (* the first product was rounded up to a power of two *)
      change (2 ^ 24) with 16777216 in *.
      assert (d1 = 47) as ->.
      { destruct Hd1 as [-> | ->]; [done|]. exfalso.
        change (2 ^ (48 - 24)) with 16777216 in *. lia. }
      change (2 ^ (47 - 24)) with 8388608 in *. change (2 ^ (47 - 1)) with 70368744177664 in *.
      change (2 ^ 47) with 140737488355328 in *.
      destruct (times_100 s 8388608 (e + (47 - 54) + 1) 47) as (N2 & HN2 & Hr2 & Hrep2).
      + change (2 ^ (47 - 1)) with 70368744177664. change (2 ^ 47) with 140737488355328. lia.
      + lia.
      + lia.
      + exists 48, N2. split; [by right|]. split; [done|].
        replace (e + (47 + 48 - 95)) with (e + (47 - 54) + 1 + (47 - 41)) by lia.
        split; [done|]. right. split; [done|].
        change (2 ^ (47 - 24)) with 8388608 in *. lia. }
  destruct (represents_ticks _ _ _ _ Hrep2 ltac:(lia)) as [Hfin ->].
  split; [done|]. cbn [single.ticks].
  destruct Hclose as [ [Hsum Hclose] | [Hsum Hclose] ].
  - replace (e + (d1 + d2 - 95) + 149) with (e + 148) by lia.
    rewrite HPQ. replace (Zpos m * (2 * 2 ^ (e + 148))) with (2 * Zpos m * 2 ^ (e + 148)) by lia.
    apply ticks_close; [done | lia].
  - replace (e + (d1 + d2 - 95) + 149) with (e + 149) by lia.
    replace (2 ^ (e + 149)) with (1 * 2 ^ (e + 149)) at 3 by lia.
    apply ticks_close; [done | lia].
Qed.

Lemma represents_le (r : spec_float) (s : bool) (N e : Z) :
  represents r s N e -> 0 <= N <= 2 ^ 24.
Proof.
  change (2 ^ 24) with 16777216.
  intros [ [-> _] | [ (m & <- & Hlt & _) | [-> _] ] ]; change (2 ^ 24) with 16777216 in *; lia.
Qed.

(** Below [2 ** -119] the products underflow; the results stay as small. *)
Lemma there_and_back_tiny (s : bool) (m : positive) (e : Z) :
  Zpos m < 2 ^ 24 -> -149 <= e <= -143 ->
  single.is_finite (there_and_back (S754_finite s m e)) = true
  ∧ Z.abs (single.ticks (there_and_back (S754_finite s m e))
           - single.ticks (S754_finite s m e)) <= 2 ^ 32.
Proof.
  change (2 ^ 24) with 16777216. intros Hm He.
  assert (0 < 2 ^ (e + 149) <= 2 ^ 6) as HP.
  { split; [apply Z.pow_pos_nonneg; lia | apply Z.pow_le_mono_r; lia]. }
  change (2 ^ 6) with 64 in HP.
  assert (forall r N e2,
            represents r s N e2 -> -149 <= e2 <= -142 ->
            single.is_finite r = true
            ∧ Z.abs (single.ticks r - single.ticks (S754_finite s m e)) <= 2 ^ 32) as Hsmall.
  { intros r N e2 Hrep He2.
    destruct (represents_ticks _ _ _ _ Hrep ltac:(lia)) as [Hfin ->].
    pose proof (represents_le _ _ _ _ Hrep) as HN. change (2 ^ 24) with 16777216 in HN.
    split; [done|]. cbn [single.ticks].
    assert (0 < 2 ^ (e2 + 149) <= 2 ^ 7) as HQ.
    { split; [apply Z.pow_pos_nonneg; lia | apply Z.pow_le_mono_r; lia]. }
    change (2 ^ 7) with 128 in HQ. change (2 ^ 32) with 4294967296.
    destruct s; nia. }
  unfold there_and_back. rewrite scalar_0_01, scalar_100, fmul_finite.
  pose proof (round_aux_spec s (m * 10737418) (e + -30)) as H1. cbv zeta in H1.
  pose proof (digits2_pos_le (m * 10737418) 48
                ltac:(rewrite Pos2Z.inj_mul; change (2 ^ 48) with 281474976710656; lia)) as Hd1.
  pose proof (Pos2Z.is_pos (digits2_pos (m * 10737418))) as Hd1'.
  rewrite fexp_single in H1.
  replace (Z.max (Zpos (digits2_pos (m * 10737418)) + (e + -30) - 24) (-149)) with (-149)
    in H1 by lia.
  rewrite Pos2Z.inj_mul in H1.
  destruct H1 as (N1 & HN1 & Hr1 & Hrep1); [lia | lia |].
  destruct Hrep1 as [ [-> ->] | [ (m1 & Hm1 & Hlt1 & ->) | [-> ->] ] ].
  - (* the first product is rounded to zero *)
    unfold single.fmul, SFmul. split; [done|]. cbn [single.ticks].
    change (2 ^ 32) with 4294967296. destruct s; nia.
  - change (2 ^ 24) with 16777216 in Hlt1. rewrite fmul_finite.
    pose proof (round_aux_spec s (m1 * 13107200) (-149 + -17)) as H2. cbv zeta in H2.
    pose proof (digits2_pos_le (m1 * 13107200) 48
                  ltac:(rewrite Pos2Z.inj_mul; change (2 ^ 48) with 281474976710656; lia)) as Hd2.
    pose proof (Pos2Z.is_pos (digits2_pos (m1 * 13107200))) as Hd2'.
    rewrite Pos2Z.inj_mul in H2.
    set (e2 := fexp 24 128 (Zpos (digits2_pos (m1 * 13107200)) + (-149 + -17))) in *.
    assert (-149 <= e2 <= -142) as He2 by (unfold e2; rewrite fexp_single; lia).
    destruct H2 as (N2 & HN2 & Hr2 & Hrep2); [lia | lia |].
    by eapply Hsmall.
  - rewrite fmul_finite.
    pose proof (round_aux_spec s (8388608 * 13107200) (-149 + 1 + -17)) as H2. cbv zeta in H2.
    set (e2 := fexp 24 128 (Zpos (digits2_pos (8388608 * 13107200)) + (-149 + 1 + -17))) in *.
    assert (e2 = -142) as He2 by (by vm_compute).
    rewrite Pos2Z.inj_mul in H2.
    destruct H2 as (N2 & HN2 & Hr2 & Hrep2); [lia | lia |].
    eapply Hsmall; [exact Hrep2 | lia].
Qed.

(** *** One component *)

Lemma bounded_single (m : positive) (e : Z) :
  bounded 24 128 m e = true ->
  -149 <= e <= 104 ∧ Zpos m < 2 ^ 24 ∧ (-149 < e -> 2 ^ 23 <= Zpos m).
Proof.
  unfold bounded, canonical_mantissa. rewrite andb_true_iff, Z.eqb_eq, Z.leb_le, fexp_single.
  change (128 - 24) with 104. intros [Hcan Hmax].
  destruct (digits2_pos_bounds m) as [Hlo Hhi].
  pose proof (Pos2Z.is_pos (digits2_pos m)) as Hd.
  assert (Zpos (digits2_pos m) <= 24) as Hd24 by lia.
  split; [lia|]. split.
  - eapply Z.lt_le_trans; [exact Hhi|]. apply Z.pow_le_mono_r; lia.
  - intros He. assert (Zpos (digits2_pos m) = 24) as Hd' by lia.
    rewrite Hd' in Hlo. exact Hlo.
Qed.

(** The error of [x * 0.01 * 100] in single precision, in units of
    [2 ** -149]: at most [2 ** -14] below 1000, at most [2 ** -17] below
    128. *)
Lemma there_and_back_close (x : single.float) :
  valid_binary 24 128 x = true -> single.is_finite x = true ->
  Z.abs (single.ticks x) < 1000 * 2 ^ 149 ->
  single.is_finite (there_and_back x) = true
  ∧ Z.abs (single.ticks (there_and_back x) - single.ticks x) <= 2 ^ 135
  ∧ (Z.abs (single.ticks x) < 128 * 2 ^ 149 ->
     Z.abs (single.ticks (there_and_back x) - single.ticks x) <= 2 ^ 132).
Proof.
  intros Hvalid Hfin Hlt. destruct x as [s| | |s m e]; [| done | done |].
  - unfold there_and_back. rewrite scalar_0_01, scalar_100.
    unfold single.fmul, SFmul. cbn [single.ticks single.is_finite].
    rewrite Z.sub_diag. cbn [Z.abs].
    split; [done|]. split; [|intros _]; apply Z.pow_nonneg; lia.
  - cbn [valid_binary] in Hvalid. apply bounded_single in Hvalid as (He & Hm & Hnormal).
    destruct (Z.le_gt_cases e (-143)) as [Hsmall|Hbig].
    + destruct (there_and_back_tiny s m e Hm ltac:(lia)) as [Hf Hclose].
      split; [done|].
      assert (2 ^ 32 <= 2 ^ 132) by (apply Z.pow_le_mono_r; lia).
      assert (2 ^ 132 <= 2 ^ 135) by (apply Z.pow_le_mono_r; lia).
      split; [lia | intros _; lia].
    + specialize (Hnormal ltac:(lia)).
      assert (forall k, Z.abs (single.ticks (S754_finite s m e)) < 2 ^ k * 2 ^ 149 ->
                        0 <= k -> e + 149 <= k + 125) as Hexp.
      { intros k Hk Hk0. cbn [single.ticks] in Hk.
        assert (0 < 2 ^ (e + 149)) as HP by (apply Z.pow_pos_nonneg; lia).
        assert (Zpos m * 2 ^ (e + 149) < 2 ^ k * 2 ^ 149) as Hk' by (destruct s; lia).
        assert (2 ^ 23 * 2 ^ (e + 149) < 2 ^ k * 2 ^ 149) as Hk'' by nia.
        rewrite <- !Z.pow_add_r in Hk'' by lia.
        apply Z.pow_lt_mono_r_iff in Hk''; lia. }
      assert (e <= 100) as He100.
      { pose proof (Hexp 10 ltac:(change (2 ^ 10) with 1024; lia) ltac:(lia)). lia. }
      destruct (there_and_back_normal s m e ltac:(lia) ltac:(lia)) as [Hf Hclose].
      split; [done|]. split.
      * etrans; [exact Hclose|]. apply Z.pow_le_mono_r; [lia|].
        pose proof (Hexp 10 ltac:(change (2 ^ 10) with 1024; lia) ltac:(lia)). lia.
      * intros H128. etrans; [exact Hclose|]. apply Z.pow_le_mono_r; [lia|].
        pose proof (Hexp 7 ltac:(change (2 ^ 7) with 128; lia) ltac:(lia)). lia.
Qed.

(** *** Values as real numbers *)

Lemma ticks_unit_pos : (0 < IZR (2 ^ 149))%R.
Proof. apply IZR_lt. by apply Z.pow_pos_nonneg. Qed.

Lemma to_R_dist (a b : single.float) :
  Rabs (single.to_R a - single.to_R b)
  = (IZR (Z.abs (single.ticks a - single.ticks b)) / IZR (2 ^ 149))%R.
Proof.
  pose proof ticks_unit_pos as HK. unfold single.to_R.
  set (K := IZR (2 ^ 149)) in *. clearbody K.
  replace (IZR (single.ticks a) / K - IZR (single.ticks b) / K)%R
    with ((IZR (single.ticks a) - IZR (single.ticks b)) * / K)%R by (field; lra).
  rewrite Rabs_mult, (Rabs_right (/ K)), <- minus_IZR, <- abs_IZR; [done|].
  left. by apply Rinv_0_lt_compat.
Qed.

Lemma to_R_abs (a : single.float) :
  Rabs (single.to_R a) = (IZR (Z.abs (single.ticks a)) / IZR (2 ^ 149))%R.
Proof.
  pose proof ticks_unit_pos as HK. unfold single.to_R.
  set (K := IZR (2 ^ 149)) in *. clearbody K. unfold Rdiv.
  rewrite Rabs_mult, (Rabs_right (/ K)), <- abs_IZR; [done|].
  left. by apply Rinv_0_lt_compat.
Qed.

Lemma ratio_le (t num den : Z) :
  0 < den -> t * den <= num * 2 ^ 149 ->
  (IZR t / IZR (2 ^ 149) <= IZR num / IZR den)%R.
Proof.
  intros Hden Hle. pose proof ticks_unit_pos as HK.
  apply IZR_le in Hle. rewrite !mult_IZR in Hle. apply IZR_lt in Hden.
  set (K := IZR (2 ^ 149)) in *. clearbody K.
  replace (IZR t / K)%R with (IZR t * IZR den * / (K * IZR den))%R by (field; lra).
  replace (IZR num / IZR den)%R with (IZR num * K * / (K * IZR den))%R by (field; lra).
  apply Rmult_le_compat_r; [|done].
  left. apply Rinv_0_lt_compat. by apply Rmult_lt_0_compat.
Qed.

Lemma ratio_lt (t num den : Z) :
  0 < den -> t * den < num * 2 ^ 149 ->
  (IZR t / IZR (2 ^ 149) < IZR num / IZR den)%R.
Proof.
  intros Hden Hlt. pose proof ticks_unit_pos as HK.
  apply IZR_lt in Hlt. rewrite !mult_IZR in Hlt. apply IZR_lt in Hden.
  set (K := IZR (2 ^ 149)) in *. clearbody K.
  replace (IZR t / K)%R with (IZR t * IZR den * / (K * IZR den))%R by (field; lra).
  replace (IZR num / IZR den)%R with (IZR num * K * / (K * IZR den))%R by (field; lra).
  apply Rmult_lt_compat_r; [|done].
  apply Rinv_0_lt_compat. by apply Rmult_lt_0_compat.
Qed.

Lemma ratio_gt (t num den : Z) :
  0 < den -> num * 2 ^ 149 < t * den ->
  (IZR num / IZR den < IZR t / IZR (2 ^ 149))%R.
Proof.
  intros Hden Hlt. pose proof ticks_unit_pos as HK.
  apply IZR_lt in Hlt. rewrite !mult_IZR in Hlt. apply IZR_lt in Hden.
  set (K := IZR (2 ^ 149)) in *. clearbody K.
  replace (IZR t / K)%R with (IZR t * IZR den * / (K * IZR den))%R by (field; lra).
  replace (IZR num / IZR den)%R with (IZR num * K * / (K * IZR den))%R by (field; lra).
  apply Rmult_lt_compat_r; [|done].
  apply Rinv_0_lt_compat. by apply Rmult_lt_0_compat.
Qed.

Lemma ratio_lt_inv (t n : Z) :
  (IZR t / IZR (2 ^ 149) < IZR n)%R -> t < n * 2 ^ 149.
Proof.
  intros Hlt. pose proof ticks_unit_pos as HK. apply lt_IZR. rewrite mult_IZR.
  set (K := IZR (2 ^ 149)) in *. clearbody K.
  replace (IZR t) with (IZR t / K * K)%R by (field; lra).
  by apply Rmult_lt_compat_r.
Qed.

(** A number given by its ticks is below [n]. *)
Lemma to_R_below (x : single.float) (n : Z) :
  Z.abs (single.ticks x) < n * 2 ^ 149 -> (Rabs (single.to_R x) < IZR n)%R.
Proof.
  intros Hlt. rewrite to_R_abs.
  replace (IZR n) with (IZR n / IZR 1)%R by (field; lra).
  apply ratio_lt; lia.
Qed.

Lemma there_and_back_close_R (x : single.float) :
  valid_binary single.prec single.emax x = true -> single.is_finite x = true ->
  (Rabs (single.to_R x) < 1000)%R ->
  single.is_finite (there_and_back x) = true
  ∧ (Rabs (single.to_R (there_and_back x) - single.to_R x) <= 1 / 16384)%R
  ∧ ((Rabs (single.to_R x) < 128)%R ->
     (Rabs (single.to_R (there_and_back x) - single.to_R x) < 1 / 100000)%R).
Proof.
  intros Hvalid Hfin Hlt. rewrite to_R_abs in Hlt. apply ratio_lt_inv in Hlt.
  destruct (there_and_back_close x Hvalid Hfin Hlt) as (Hf & Hclose & H128).
  split; [done|]. rewrite to_R_dist.
  assert (2 ^ 149 = 2 ^ 135 * 16384) as E135 by (by vm_compute).
  assert (2 ^ 149 = 2 ^ 132 * 131072) as E132 by (by vm_compute).
  assert (0 < 2 ^ 132) as H132 by (by apply Z.pow_pos_nonneg).
  split.
  - apply ratio_le; [lia|]. rewrite E135. lia.
  - intros Hx. rewrite to_R_abs in Hx. apply ratio_lt_inv in Hx.
    apply ratio_lt; [lia|]. specialize (H128 Hx). rewrite E132. lia.
Qed.

(** C9, as the conversions behave.  The components of a [Vector] are single
    precision numbers, and both scalings round to single precision.  For a
    position whose components are below 1000 in absolute value, scaling by
    0.01 and then by 100 gives every component back within [2 ** -14]
    (about 6.1e-5, one unit in the last place just below 1000); within 1e-5
    it comes back when the component is below 128. *)
Theorem pos_round_trip_single (pos : single.Vector) :
  single.all (fun x => valid_binary single.prec single.emax x = true
                       ∧ single.is_finite x = true
                       ∧ (Rabs (single.to_R x) < 1000)%R) pos ->
  let back := pos_m_to_cm (pos_cm_to_m pos) in
  single.all (fun b => single.is_finite b = true) back
  ∧ single.all2 (fun b x => (Rabs (single.to_R b - single.to_R x) <= 1 / 16384)%R) back pos
  ∧ single.all2 (fun b x => (Rabs (single.to_R x) < 128)%R ->
                            (Rabs (single.to_R b - single.to_R x) < 1 / 100000)%R) back pos.
Proof.
  destruct pos as [[x y] z]. intros ((Hx1 & Hx2 & Hx3) & (Hy1 & Hy2 & Hy3) & (Hz1 & Hz2 & Hz3)).
  cbn [fst snd] in *.
  destruct (there_and_back_close_R x Hx1 Hx2 Hx3) as (Fx & Cx & Tx).
  destruct (there_and_back_close_R y Hy1 Hy2 Hy3) as (Fy & Cy & Ty).
  destruct (there_and_back_close_R z Hz1 Hz2 Hz3) as (Fz & Cz & Tz).
  unfold there_and_back in *.
  unfold pos_m_to_cm, pos_cm_to_m, single.Vector_mul, single.all, single.all2.
  cbn [fst snd]. done.
Qed.

End single_facts.

(** On a sample: a component just below 1000, the number 1 and 0. *)
Lemma pos_round_trip_single_witness :
  let pos := (samples.near_1000, S754_finite false 8388608 (-23), S754_zero false) in
  let back := coordinate_converter_single.pos_m_to_cm
                (coordinate_converter_single.pos_cm_to_m pos) in
  single.all (fun b => single.is_finite b = true) back
  ∧ single.all2 (fun b x => (Rabs (single.to_R b - single.to_R x) <= 1 / 16384)%R) back pos
  ∧ single.all2 (fun b x => (Rabs (single.to_R x) < 128)%R ->
                            (Rabs (single.to_R b - single.to_R x) < 1 / 100000)%R) back pos.
Proof.
  apply (pos_round_trip_single
           (samples.near_1000, S754_finite false 8388608 (-23), S754_zero false)).
  repeat split; try reflexivity; apply to_R_below; vm_compute; reflexivity.
Defined.

(** C9 fails as stated: the single precision number [16383951 * 2 ** -14]
    (about 999.99701) comes back as [16383950 * 2 ** -14], which is
    [2 ** -14], more than 1e-5, away. *)
Lemma pos_round_trip_misses_tolerance :
  valid_binary single.prec single.emax samples.near_1000 = true
  ∧ (Rabs (single.to_R samples.near_1000) < 1000)%R
  ∧ coordinate_converter_single.pos_m_to_cm
      (coordinate_converter_single.pos_cm_to_m
         (samples.near_1000, samples.near_1000, samples.near_1000))
    = (samples.near_1000_back, samples.near_1000_back, samples.near_1000_back)
  ∧ (1 / 100000
     < Rabs (single.to_R samples.near_1000_back - single.to_R samples.near_1000))%R.
Proof.
  split; [reflexivity|]. split; [apply to_R_below; vm_compute; reflexivity|].
  split; [vm_compute; reflexivity|].
  rewrite to_R_dist. apply ratio_gt; vm_compute; reflexivity.
Qed.

(** * Further properties *)

(** ** [dict.fromkeys] *)

Section fromkeys_facts.
Import builtins.
Context {A : Type} `{EqDecision A}.
Implicit Types (l seen : list A).

Lemma fromkeys_from_elem seen l x :
  x ∈ fromkeys_from seen l <-> x ∈ l ∧ x ∉ seen.
Proof.
  revert seen. induction l as [|y l IH]; intros seen; simpl.
  - split; [by intros ?%elem_of_nil | by intros [?%elem_of_nil _]].
  - case_decide as Hy.
    + rewrite IH, elem_of_cons. naive_solver.
    + rewrite !elem_of_cons, IH, not_elem_of_cons.
      destruct (decide (x = y)) as [->|Hne]; naive_solver.
Qed.

Lemma fromkeys_from_NoDup seen l : NoDup (fromkeys_from seen l).
Proof.
  revert seen. induction l as [|y l IH]; intros seen; simpl; [constructor|].
  case_decide; [apply IH|]. constructor; [|apply IH].
  rewrite fromkeys_from_elem, not_elem_of_cons. tauto.
Qed.

Lemma fromkeys_from_filter (P : A -> Prop) `{!forall x, Decision (P x)} seen l :
  (forall x, x ∈ seen -> ¬ P x) ->
  head (filter P (fromkeys_from seen l)) = head (filter P l).
Proof.
  revert seen. induction l as [|y l IH]; intros seen Hseen; simpl; [done|].
  case_decide as Hy.
  - rewrite filter_cons_False by by apply Hseen. by apply IH.
  - rewrite !filter_cons. case_decide; [done|].
    apply IH. intros x [->|Hx]%elem_of_cons; [done | by apply Hseen].
Qed.

(** [list(dict.fromkeys(l))] has the items of [l], each once, and the first
    item with a given property is the same in both lists: removing the
    repetitions does not change which old model [make_models] picks. *)
Theorem fromkeys_keeps_first (P : A -> Prop) `{!forall x, Decision (P x)} l :
  NoDup (fromkeys l)
  ∧ (forall x, x ∈ fromkeys l <-> x ∈ l)
  ∧ head (filter P (fromkeys l)) = head (filter P l).
Proof.
  unfold fromkeys. split_and!.
  - apply fromkeys_from_NoDup.
  - intros x. rewrite fromkeys_from_elem. split; [tauto|].
    intros Hx. split; [done|]. by intros ?%elem_of_nil.
  - apply fromkeys_from_filter. by intros x ?%elem_of_nil.
Qed.

End fromkeys_facts.

(** ** The index table: names and positions *)

Section index_dict_more.
Import exporter.

Lemma index_dict_snoc (names : list string) (n : string) :
  index_dict (names ++ [n]) = <[n := length names]> (index_dict names).
Proof.
  unfold index_dict. rewrite imap_app, foldl_app. simpl.
  by rewrite Nat.add_0_r.
Qed.

Lemma index_dict_lookup_Some (names : list string) (n : string) (i : nat) :
  index_dict names !! n = Some i ->
  names !! i = Some n ∧ forall j, i < j -> names !! j ≠ Some n.
Proof.
  revert n i. induction names as [|m names IH] using rev_ind; intros n i.
  - unfold index_dict. simpl. by rewrite lookup_empty.
  - rewrite index_dict_snoc, lookup_insert. case_decide as Hm.
    + intros [= <-]. subst m. split.
      * by rewrite lookup_app_r, Nat.sub_diag by lia.
      * intros j Hj. rewrite lookup_ge_None_2; [done|].
        rewrite length_app. simpl. lia.
    + intros Hi. destruct (IH n i Hi) as [Hni Hafter].
      split; [by apply lookup_app_l_Some|].
      intros j Hj Hnj. apply lookup_app_Some in Hnj as [Hnj|[Hlen Hnj]].
      * by apply (Hafter j).
      * apply list_lookup_singleton_Some in Hnj as [_ ->]. done.
Qed.

(** The table gives, for a name of the list, the last position at which the
    name stands, and nothing for other names; when no name is repeated the
    table and the list are inverse to each other. *)
Theorem index_dict_positions (names : list string) :
  (forall n i, index_dict names !! n = Some i ->
     names !! i = Some n ∧ forall j, i < j -> names !! j ≠ Some n)
  ∧ (forall n, n ∈ names <-> is_Some (index_dict names !! n))
  ∧ (NoDup names -> forall n i, names !! i = Some n <-> index_dict names !! n = Some i).
Proof.
  pose proof (index_dict_lookup_Some names) as Hlast.
  assert (forall n, n ∈ names <-> is_Some (index_dict names !! n)) as Hdom.
  { intros n. split.
    - intros Hn. destruct (index_dict names !! n) eqn:Hl; [done|].
      exfalso. clear Hlast. revert Hl. induction names as [|m names IH] using rev_ind.
      + by apply elem_of_nil in Hn.
      + rewrite index_dict_snoc, lookup_insert. case_decide; [done|].
        apply elem_of_app in Hn as [Hn|Hn%list_elem_of_singleton]; [|congruence].
        intros Hl. by apply IH.
    - intros [i Hi]. destruct (Hlast n i Hi) as [Hni _].
      by eapply list_elem_of_lookup_2. }
  split_and!; [exact Hlast | exact Hdom |].
  intros Hnodup n i. split.
  - intros Hni. assert (n ∈ names) as [j Hj]%Hdom by by eapply list_elem_of_lookup_2.
    destruct (Hlast n j Hj) as [Hnj _].
    by rewrite (NoDup_lookup names i j n Hnodup Hni Hnj).
  - intros Hi. by apply Hlast.
Qed.

End index_dict_more.

(** ** [make_coords]: the order of the coords *)

Section make_coords_facts.
Import exporter views.
Context {Props : Type}.
Implicit Types (bone : Bone (Props:=Props)) (coords : list (NuccChunkCoord (Props:=Props))).

Lemma Bone_forall_ind (P : Bone (Props:=Props) -> Prop) :
  (forall name data children, Forall P children -> P (mkBone name data children)) ->
  forall bone, P bone.
Proof.
  intros Hbone. fix IH 1. intros [name data children].
  apply Hbone. induction children as [|c cs IHcs]; constructor; [apply IH | exact IHcs].
Qed.

Lemma parents_first_app seen coords coords' :
  parents_first seen coords ->
  parents_first (reverse (coord_name <$> coords) ++ seen) coords' ->
  parents_first seen (coords ++ coords').
Proof.
  revert seen. induction coords as [|c coords IH]; intros seen; simpl; [by intros _|].
  intros [Hc Hrest] Hafter. split; [done|]. apply IH; [done|].
  by rewrite reverse_cons, <- (assoc_L (++)) in Hafter.
Qed.

Lemma parents_first_weaken seen seen' coords :
  seen ⊆ seen' -> parents_first seen coords -> parents_first seen' coords.
Proof.
  revert seen seen'. induction coords as [|c coords IH]; intros seen seen' Hsub; simpl; [done|].
  intros [Hc Hrest]. split.
  - destruct (coord_parent c); [by apply Hsub | done].
  - eapply IH; [|exact Hrest]. set_solver.
Qed.

Lemma make_coord_spec path bone :
  forall parent parent_bone seen,
    match parent with Some p => p ∈ seen | None => True end ->
    coord_name <$> make_coord path parent parent_bone bone = bone_names bone
    ∧ Forall (fun c => coord_path c = path) (make_coord path parent parent_bone bone)
    ∧ parents_first seen (make_coord path parent parent_bone bone).
Proof.
  induction bone as [name data children IH] using Bone_forall_ind.
  intros parent parent_bone seen Hparent. cbn [make_coord bone_names].
  assert (forall seen', name ∈ seen' ->
    coord_name <$> flat_map (make_coord path (Some name) (Some data)) children
    = flat_map bone_names children
    ∧ Forall (fun c => coord_path c = path)
        (flat_map (make_coord path (Some name) (Some data)) children)
    ∧ parents_first seen' (flat_map (make_coord path (Some name) (Some data)) children))
    as Hchildren.
  { induction IH as [|c cs Hc _ IHcs]; intros seen' Hname; cbn [flat_map]; [done|].
    destruct (Hc (Some name) (Some data) seen' Hname) as (Hn1 & Hp1 & Hf1).
    destruct (IHcs (reverse (coord_name <$> make_coord path (Some name) (Some data) c) ++ seen'))
      as (Hn2 & Hp2 & Hf2); [set_solver|].
    split_and!.
    - by rewrite fmap_app, Hn1, Hn2.
    - by apply Forall_app.
    - by apply parents_first_app. }
  destruct (Hchildren (name :: seen)) as (Hn & Hp & Hf); [set_solver|].
  split_and!.
  - rewrite fmap_cons. cbn [coord_name]. by rewrite Hn.
  - by constructor.
  - cbn [parents_first coord_parent coord_name]. split; [done|]. exact Hf.
Qed.

(** [make_coords] makes one coord per bone, with the name of the bone and
    the path of the clump, in the order roots first and every bone before
    its children; so every coord that has a parent stands after a coord
    with the name of that parent. *)
Theorem make_coords_parents_first path (roots : list (Bone (Props:=Props))) :
  coord_name <$> make_coords path roots = flat_map bone_names roots
  ∧ Forall (fun c => coord_path c = path) (make_coords path roots)
  ∧ parents_first [] (make_coords path roots).
Proof.
  unfold make_coords.
  assert (forall seen,
    coord_name <$> flat_map (make_coord path None None) roots = flat_map bone_names roots
    ∧ Forall (fun c => coord_path c = path) (flat_map (make_coord path None None) roots)
    ∧ parents_first seen (flat_map (make_coord path None None) roots)) as Hroots.
  { induction roots as [|r roots IH]; intros seen; cbn [flat_map]; [done|].
    destruct (make_coord_spec path r None None seen I) as (Hn1 & Hp1 & Hf1).
    destruct (IH (reverse (coord_name <$> make_coord path None None r) ++ seen))
      as (Hn2 & Hp2 & Hf2).
    split_and!.
    - by rewrite fmap_app, Hn1, Hn2.
    - by apply Forall_app.
    - by apply parents_first_app. }
  apply Hroots.
Qed.

End make_coords_facts.

(** ** [make_armature] never fails *)

Section make_armature_total.
Import importer.
Variable to_matrix : vec3 -> matrix.

(** The values stored with a bone as custom properties: the signs of the
    scale and the two unknown values of the node. *)
Definition bone_record (b : EditBone) : (Z * Z * Z) * R * Z :=
  (bone_scale_signs b, bone_unk_float b, bone_unk_short b).

(** The same values, read from the nodes, every node before its children. *)
Fixpoint node_records (node : CoordNode) : list ((Z * Z * Z) * R * Z) :=
  let '(mkCoordNode _ _ _ scale unkFloat unkShort children) := node in
  (scale_signs_of scale, unkFloat, unkShort) :: flat_map node_records children.

Definition make_bone_total (node : CoordNode) : Prop :=
  forall parent st,
    match parent with Some p => is_Some (bone_matrices st !! p) | None => True end ->
    exists st',
      make_bone to_matrix parent node st = Some st'
      ∧ (bone_record <$> edit_bones st')
        = (bone_record <$> edit_bones st)
          ++ (bone_record <$> world_bones (local_abs to_matrix) parent Identity4 node)
      ∧ forall k, is_Some (bone_matrices st !! k) -> is_Some (bone_matrices st' !! k).

Lemma world_bones_records parent w w' (node : CoordNode) :
  bone_record <$> world_bones (local_abs to_matrix) parent w node
  = bone_record <$> world_bones (local_abs to_matrix) parent w' node.
Proof.
  revert parent w w'.
  induction node as [name position rotation scale unkFloat unkShort children IH]
    using CoordNode_forall_ind.
  intros parent w w'. cbn [world_bones]. rewrite !fmap_cons. f_equal.
  set (m := matmul w _). set (m' := matmul w' _). clearbody m m'.
  induction IH as [|c cs Hc _ IHcs]; cbn [flat_map]; [done|].
  by rewrite !fmap_app, (Hc (Some name) m m'), IHcs.
Qed.

Lemma make_bones_total (nodes : list CoordNode) :
  Forall make_bone_total nodes ->
  forall parent st,
    match parent with Some p => is_Some (bone_matrices st !! p) | None => True end ->
    exists st',
      make_bones to_matrix parent nodes st = Some st'
      ∧ (bone_record <$> edit_bones st')
        = (bone_record <$> edit_bones st)
          ++ (bone_record <$> flat_map (world_bones (local_abs to_matrix) parent Identity4) nodes)
      ∧ forall k, is_Some (bone_matrices st !! k) -> is_Some (bone_matrices st' !! k).
Proof.
  induction 1 as [|n nodes Hn _ IH]; intros parent st Hparent.
  - exists st. cbn [make_bones flat_map]. by rewrite fmap_nil, app_nil_r.
  - destruct (Hn parent st Hparent) as (st1 & Hmk & Hbones & Hkeys).
    destruct (IH parent st1) as (st2 & Hmk2 & Hbones2 & Hkeys2).
    { destruct parent; [by apply Hkeys | done]. }
    exists st2. cbn [make_bones flat_map]. rewrite Hmk. cbn [mbind option_bind].
    split_and!; [done | | by eauto].
    by rewrite Hbones2, Hbones, fmap_app, <- (assoc_L (++)).
Qed.

Lemma make_bone_is_total (node : CoordNode) : make_bone_total node.
Proof.
  induction node as [name position rotation scale unkFloat unkShort children IH]
    using CoordNode_forall_ind.
  intros parent st Hparent. rewrite make_bone_unfold.
  assert (exists pm, match parent with
                     | Some p => bone_matrices st !! p
                     | None => Some Identity4
                     end = Some pm) as [pm ->].
  { destruct parent; [by destruct Hparent as [pm ->]; eauto | eauto]. }
  cbn [mbind option_bind]. cbv zeta.
  set (m := this_bone_matrix to_matrix pm position rotation scale).
  destruct (make_bones_total children IH (Some name)
              (mkArmatureState (<[name := m]> (bone_matrices st))
                 (edit_bones st
                    ++ [mkEditBone name m parent (scale_signs_of scale) unkFloat unkShort])))
    as (st' & Hmk & Hbones & Hkeys).
  { cbn [bone_matrices]. by rewrite lookup_insert_eq. }
  exists st'. split_and!; [done | |].
  - rewrite Hbones. cbn [edit_bones world_bones]. rewrite !fmap_app, !fmap_cons.
    rewrite <- (assoc_L (++)), fmap_nil. cbn [app].
    f_equal. f_equal. set (w := matmul Identity4 _). clearbody w.
    clear. induction children as [|c cs IHcs]; cbn [flat_map]; [done|].
    rewrite !fmap_app, IHcs. f_equal. apply world_bones_records.
  - intros k Hk. apply Hkeys. cbn [bone_matrices]. rewrite lookup_insert.
    by case_decide.
Qed.

Lemma world_bones_node_records parent w (node : CoordNode) :
  bone_record <$> world_bones (local_abs to_matrix) parent w node = node_records node.
Proof.
  revert parent w.
  induction node as [name position rotation scale unkFloat unkShort children IH]
    using CoordNode_forall_ind.
  intros parent w. cbn [world_bones node_records]. rewrite fmap_cons. f_equal.
  set (m := matmul w _). clearbody m.
  induction IH as [|c cs Hc _ IHcs]; cbn [flat_map]; [done|].
  by rewrite fmap_app, Hc, IHcs.
Qed.

(** [make_armature] returns for every forest, also when names are repeated:
    the matrix of the parent is always found in [bone_matrices], so the
    lookup never fails.  It makes one bone per node, every node before its
    children, and stores with each bone the signs of the node's scale and
    its two unknown values. *)
Theorem make_armature_returns (root_nodes : list CoordNode) :
  exists st,
    make_armature to_matrix root_nodes = Some st
    ∧ bone_record <$> edit_bones st = flat_map node_records root_nodes
    ∧ length (edit_bones st) = length (flat_map node_names root_nodes).
Proof.
  destruct (make_bones_total root_nodes
              (proj2 (Forall_forall _ _) (fun n _ => make_bone_is_total n))
              None (mkArmatureState ∅ []) I) as (st & Hmk & Hbones & _).
  cbn [edit_bones] in Hbones. rewrite fmap_nil, app_nil_l in Hbones.
  assert (bone_record <$> edit_bones st = flat_map node_records root_nodes) as Hrec.
  { rewrite Hbones. clear. induction root_nodes as [|r roots IH]; cbn [flat_map]; [done|].
    by rewrite fmap_app, IH, world_bones_node_records. }
  exists st. split_and!; [done | done |].
  rewrite <- (length_fmap bone_record), Hrec. clear.
  induction root_nodes as [|r roots IH]; cbn [flat_map]; [done|].
  rewrite !length_app, IH. f_equal. clear.
  induction r as [name position rotation scale unkFloat unkShort children IH]
    using CoordNode_forall_ind.
  cbn [node_records node_names length]. f_equal.
  induction IH as [|c cs Hc _ IHcs]; cbn [flat_map]; [done|].
  by rewrite !length_app, Hc, IHcs.
Qed.

(** The sign kept with the bone and the absolute value that enters the
    matrix give the stored scale back, for every component (over the
    reals; 0 has the sign 1). *)
Theorem scale_is_sign_times_abs (scale : vec3) :
  let '(sx, sy, sz) := scale_signs_of scale in
  let '(ax, ay, az) := vec3_map Rabs scale in
  ((IZR sx * ax, IZR sy * ay, IZR sz * az)%R = scale)
  ∧ (sx = 1 ∨ sx = -1)%Z ∧ (sy = 1 ∨ sy = -1)%Z ∧ (sz = 1 ∨ sz = -1)%Z.
Proof.
  destruct scale as [[x y] z]. simpl.
  assert (forall r, (IZR (sign_of r) * Rabs r)%R = r ∧ (sign_of r = 1 ∨ sign_of r = -1)%Z) as H.
  { intros r. unfold sign_of. destruct (Rlt_dec r 0).
    - rewrite Rabs_left by done. split; [lra | by right].
    - rewrite Rabs_right by lra. split; [lra | by left]. }
  destruct (H x) as [-> ?], (H y) as [-> ?], (H z) as [-> ?]. done.
Qed.

End make_armature_total.

(** ** The rigging flag through the panel and back *)

Section rigging_flag_facts.
Import nud_panel.

Lemma land_pow2 (f k : Z) :
  (0 <= k)%Z -> Z.land f (2 ^ k) = if Z.testbit f k then (2 ^ k)%Z else 0%Z.
Proof.
  intros Hk. apply Z.bits_inj'. intros n Hn.
  rewrite Z.land_spec, Z.pow2_bits_eqb by done.
  destruct (Z.eqb_spec k n) as [->|Hne].
  - rewrite andb_true_r.
    destruct (Z.testbit f n) eqn:E; [by rewrite Z.pow2_bits_true | by rewrite Z.bits_0].
  - rewrite andb_false_r.
    destruct (Z.testbit f k); [by rewrite Z.pow2_bits_false | by rewrite Z.bits_0].
Qed.

Lemma land_55 (f : Z) :
  Z.land f 55
  = Z.lor (Z.land f 1) (Z.lor (Z.land f 2) (Z.lor (Z.land f 4)
      (Z.lor (Z.land f 16) (Z.land f 32)))).
Proof.
  rewrite <- !Z.land_lor_distr_r. done.
Qed.

(** The flag a model is exported with is the flag it was imported with,
    restricted to the five members the panel has items for
    (0x01 | 0x02 | 0x04 | 0x10 | 0x20 = 55): a bit outside of them is lost,
    the five bits are kept. *)
Theorem rigging_flag_round_trip (flag : Z) :
  export_rigging_flag (init_rigging_flag flag) (init_rigging_flag_extra flag)
  = Z.land flag 55.
Proof.
  rewrite land_55. unfold init_rigging_flag, init_rigging_flag_extra, add_if.
  unfold UNSKINNED, SKINNED, BODY, BLUR, SHADOW.
  pose proof (land_pow2 flag 0 ltac:(lia)) as H0.
  pose proof (land_pow2 flag 1 ltac:(lia)) as H1.
  pose proof (land_pow2 flag 2 ltac:(lia)) as H2.
  pose proof (land_pow2 flag 4 ltac:(lia)) as H4.
  pose proof (land_pow2 flag 5 ltac:(lia)) as H5.
  change (2 ^ 0)%Z with 1%Z in H0. change (2 ^ 1)%Z with 2%Z in H1.
  change (2 ^ 2)%Z with 4%Z in H2. change (2 ^ 4)%Z with 16%Z in H4.
  change (2 ^ 5)%Z with 32%Z in H5. rewrite H0, H1, H2, H4, H5.
  destruct (Z.testbit flag 0), (Z.testbit flag 1), (Z.testbit flag 2),
    (Z.testbit flag 4), (Z.testbit flag 5); vm_compute; reflexivity.
Qed.

End rigging_flag_facts.

(** ** The name of the armature and the name of the clump *)

Section clump_name_facts.
Import exporter views.

Lemma substring_append_skip (s t : string) (m : nat) :
  String.substring (String.length s) m (s ++ t) = String.substring 0 m t.
Proof. induction s as [|c s IH]; simpl; [done | exact IH]. Qed.

Lemma substring_append_prefix (s t : string) :
  String.substring 0 (String.length s) (s ++ t) = s.
Proof.
  induction s as [|c s IH]; simpl; [by destruct t | by rewrite IH].
Qed.

Lemma length_append (s t : string) :
  String.length (s ++ t) = String.length s + String.length t.
Proof. induction s as [|c s IH]; simpl; [done | by rewrite IH]. Qed.

(** The importer names the armature of a clump [name + ' [C]'], and the
    exporter takes these four characters off again: the clump gets its name
    back, also when that name itself ends in [' [C]']. *)
Theorem clump_name_round_trip (name : string) :
  strip_clump_suffix (armature_name_of name) = name.
Proof.
  unfold strip_clump_suffix, armature_name_of. rewrite length_append. simpl String.length.
  replace (String.length name + 4 - 4) with (String.length name) by lia.
  rewrite substring_append_skip, substring_append_prefix.
  rewrite bool_decide_eq_true_2 by lia. by rewrite bool_decide_eq_true_2.
Qed.

End clump_name_facts.

(** ** The vertices of a mesh *)

Section vertex_facts.
Import exporter views.
Context {Geom : Type}.
Implicit Types (b : mesh_builder (Geom:=Geom)) (l : Loop (Geom:=Geom)).
Implicit Types (ls : list (Loop (Geom:=Geom))).
Implicit Types (tris : list (Loop (Geom:=Geom) * Loop (Geom:=Geom) * Loop (Geom:=Geom))).
Variable cid : gmap string nat.

Lemma first_loops_from_snoc ls : forall seen l,
  first_loops_from seen (ls ++ [l])
  = first_loops_from seen ls
    ++ (if decide (vert_index l ∈ seen ++ (vert_index <$> ls)) then [] else [l]).
Proof.
  induction ls as [|l0 ls IH]; intros seen l; cbn [app first_loops_from].
  - rewrite fmap_nil, app_nil_r. by case_decide.
  - case_decide as Hin.
    + rewrite IH. f_equal. apply decide_ext.
      rewrite !elem_of_app, fmap_cons, elem_of_cons.
      split; [tauto | intros [? | [Heq | ?] ]; [tauto | rewrite Heq; tauto | tauto] ].
    + rewrite IH. cbn [app]. f_equal. f_equal. apply decide_ext.
      rewrite fmap_cons. repeat (rewrite elem_of_app || rewrite elem_of_cons). tauto.
Qed.

Lemma first_loops_from_elem ls : forall seen i,
  i ∈ vert_index <$> first_loops_from seen ls <-> i ∈ vert_index <$> ls ∧ i ∉ seen.
Proof.
  induction ls as [|l0 ls IH]; intros seen i; cbn [first_loops_from].
  - rewrite fmap_nil, elem_of_nil. tauto.
  - case_decide as Hin.
    + rewrite IH, fmap_cons, elem_of_cons. split; [tauto|].
      intros [[-> | ?] ?]; tauto.
    + rewrite !fmap_cons, !elem_of_cons, IH, elem_of_cons.
      destruct (decide (i = vert_index l0)) as [->|]; tauto.
Qed.

Lemma first_loops_from_NoDup ls : forall seen,
  NoDup (vert_index <$> first_loops_from seen ls).
Proof.
  induction ls as [|l0 ls IH]; intros seen; cbn [first_loops_from]; [constructor|].
  case_decide; [apply IH|]. rewrite fmap_cons. constructor; [|apply IH].
  rewrite first_loops_from_elem, elem_of_cons. tauto.
Qed.

(** What holds of the builder after the loops [ls] were visited. *)
Definition visited b ls : Prop :=
  b_vertices b = make_vertex cid <$> first_loops ls
  ∧ forall i k, vertex_indices_dict b !! i = Some k
                <-> (vert_index <$> first_loops ls) !! k = Some i.

Lemma visited_size b ls :
  visited b ls -> size (vertex_indices_dict b) = length (first_loops ls).
Proof.
  intros [_ Hdict].
  rewrite <- (length_fmap vert_index), <- size_dom.
  rewrite <- (size_list_to_set (C:=gset nat)) by apply first_loops_from_NoDup.
  f_equal. apply set_eq. intros i. rewrite elem_of_dom, elem_of_list_to_set.
  rewrite list_elem_of_lookup. unfold is_Some. by setoid_rewrite Hdict.
Qed.

Lemma add_loop_visited b ls l :
  visited b ls -> visited (add_loop cid b l) (ls ++ [l]).
Proof.
  intros Hv. pose proof (visited_size b ls Hv) as Hsize. destruct Hv as [Hvert Hdict].
  assert (is_Some (vertex_indices_dict b !! vert_index l) <-> vert_index l ∈ vert_index <$> ls)
    as Hsome.
  { unfold is_Some. setoid_rewrite Hdict. rewrite <- list_elem_of_lookup.
    unfold first_loops. rewrite first_loops_from_elem, elem_of_nil. tauto. }
  unfold visited, first_loops, add_loop in *. rewrite first_loops_from_snoc. simpl.
  case_decide as Hin; rewrite Hsome in Hin.
  - rewrite decide_True by done. by rewrite app_nil_r.
  - rewrite decide_False by done. simpl. split; [by rewrite Hvert, fmap_app|].
    intros i k. rewrite fmap_app. simpl. rewrite lookup_insert. case_decide as Hi.
    + subst i. rewrite Hsize, <- (length_fmap vert_index). split.
      * intros [= <-]. by rewrite lookup_app_r, Nat.sub_diag by lia.
      * intros Hk. f_equal. destruct (decide (k < length (vert_index <$> first_loops_from [] ls)))
          as [Hlt|Hge].
        -- rewrite lookup_app_l in Hk by done. exfalso. apply Hin.
           apply (proj1 (first_loops_from_elem ls [] (vert_index l))).
           by eapply list_elem_of_lookup_2.
        -- apply lookup_lt_Some in Hk. rewrite length_app in Hk. simpl in Hk. lia.
    + rewrite Hdict. split.
      * intros Hk. by apply lookup_app_l_Some.
      * intros Hk. apply lookup_app_Some in Hk as [Hk | [Hge Hk]]; [done|].
        apply list_lookup_singleton_Some in Hk as [_ Heq]. congruence.
Qed.

Lemma add_loops_visited ls' : forall b ls,
  visited b ls -> visited (foldl (add_loop cid) b ls') (ls ++ ls').
Proof.
  induction ls' as [|l ls' IH]; intros b ls Hv; simpl.
  - by rewrite app_nil_r.
  - rewrite cons_middle, (assoc_L (++) ls [l] ls'). apply IH. by apply add_loop_visited.
Qed.

Lemma add_triangle_visited b ls t :
  visited b ls -> visited (add_triangle cid b t) (ls ++ corner_loops [t]).
Proof.
  intros Hv. destruct t as [[l0 l1] l2].
  pose proof (add_loops_visited [l0; l1; l2] b ls Hv) as Hv'.
  unfold add_triangle, corner_loops. exact Hv'.
Qed.

Lemma add_triangles_visited tris : forall b ls,
  visited b ls -> visited (foldl (add_triangle cid) b tris) (ls ++ corner_loops tris).
Proof.
  induction tris as [|t tris IH]; intros b ls Hv.
  - unfold corner_loops. simpl. by rewrite app_nil_r.
  - replace (ls ++ corner_loops (t :: tris)) with ((ls ++ corner_loops [t]) ++ corner_loops tris).
    + cbn [foldl]. apply IH. by apply add_triangle_visited.
    + unfold corner_loops. simpl. by rewrite <- !(assoc_L (++)).
Qed.

(** The vertex list of a mesh: one vertex for every surface vertex that a
    triangle uses, made from the loop at which the surface vertex is visited
    first (later loops of the same surface vertex, with other UVs say, are
    not looked at), in the order of the first visit; the table sends a
    surface vertex to the place of its vertex, and every index of a face is
    a place of the vertex list. *)
Theorem vertices_are_first_loops tris :
  let b := build_mesh cid tris in
  let n := length (b_vertices b) in
  b_vertices b = make_vertex cid <$> first_loops (corner_loops tris)
  ∧ (forall i k, vertex_indices_dict b !! i = Some k
                 <-> (vert_index <$> first_loops (corner_loops tris)) !! k = Some i)
  ∧ Forall (fun f => f.1.1 < n ∧ f.1.2 < n ∧ f.2 < n) (b_faces b).
Proof.
  intros b n.
  assert (visited (mkMeshBuilder ∅ [] []) []) as Hstart.
  { split; [done|]. intros i k. simpl. rewrite lookup_empty. done. }
  pose proof (add_triangles_visited tris _ _ Hstart) as [Hvert Hdict]. simpl in Hvert, Hdict.
  fold (build_mesh cid tris) in Hvert, Hdict. fold b in Hvert, Hdict.
  split_and!; [done | done |].
  destruct (build_mesh_spec cid tris) as ([Hlen Hbound _] & Hdom & Hfaces).
  fold b in Hlen, Hbound, Hdom, Hfaces. rewrite Hfaces.
  apply Forall_fmap, Forall_forall. intros [[l0 l1] l2] Ht. simpl.
  assert (forall l, vert_index l ∈ corner_indices tris ->
                    vertex_indices_dict b !!! vert_index l < n) as Hin.
  { intros l Hl.
    assert (vert_index l ∈ dom (vertex_indices_dict b)) as [v Hv]%elem_of_dom
      by (rewrite Hdom; set_solver).
    rewrite (lookup_total_correct _ _ _ Hv). unfold n. rewrite Hlen. by eapply Hbound. }
  assert (forall i, i ∈ [vert_index l0; vert_index l1; vert_index l2] ->
                    i ∈ corner_indices tris) as Hcorner.
  { intros i Hi. unfold corner_indices. apply list_elem_of_In, in_flat_map.
    exists (l0, l1, l2). split; [by apply list_elem_of_In | by apply list_elem_of_In]. }
  split_and!; apply Hin, Hcorner; set_solver.
Qed.

End vertex_facts.

(** ** The models of a clump *)

Section models_made.
Import exporter.
Context (MAX_VERTICES MAX_FACES : nat) {Geom Props : Type}.
Implicit Types (e : Empty (Geom:=Geom) (Props:=Props)).
Implicit Types (mo : MeshObject (Geom:=Geom) (Props:=Props)).
Implicit Types (mos : list (MeshObject (Geom:=Geom) (Props:=Props))).
Implicit Types (es : list (Empty (Geom:=Geom) (Props:=Props))).
Implicit Types (chunk : NuccChunkModel (Geom:=Geom) (Props:=Props)).
Implicit Types (cid : gmap string nat).
Implicit Types (mats : gmap string (NuccChunkMaterial (Props:=Props))).
Implicit Types (coords : list (NuccChunkCoord (Props:=Props))).

Local Notation convert_mesh := (exporter.convert_mesh MAX_VERTICES MAX_FACES).
Local Notation make_model := (exporter.make_model MAX_VERTICES MAX_FACES).
Local Notation add_empty := (exporter.add_empty MAX_VERTICES MAX_FACES).
Local Notation make_models := (exporter.make_models MAX_VERTICES MAX_FACES).

(** What holds of a model that the exporter has built from an empty. *)
Definition well_built path coords mats chunk : Prop :=
  model_path chunk = path
  ∧ nud_meshes chunk ≠ []
  ∧ length (material_chunks chunk) = length (nud_meshes chunk)
  ∧ Forall (fun mat => exists k, mats !! k = Some mat) (material_chunks chunk)
  ∧ Forall (fun m => 3 <= length (vertices m) <= MAX_VERTICES
                     ∧ length (faces m) <= MAX_FACES) (nud_meshes chunk)
  ∧ (coord_index chunk = 0 ∨ coord_index chunk < length coords).

(** What holds of a model that was taken from the clump of the file. *)
Definition taken_over settings (h : heap) (old : option (NuccChunkClump (Props:=Props)))
    chunk : Prop :=
  export_specific_meshes settings = true
  ∧ exists o, old = Some o ∧ Some chunk ∈ old_clump_all_models h o.

Lemma results_same_length cid mats mos :
  length (omap result_material (convert_mesh cid mats <$> mos))
  = length (omap result_mesh (convert_mesh cid mats <$> mos)).
Proof.
  induction mos as [|mo mos IH]; [done|]. rewrite fmap_cons. cbn [omap list_omap].
  destruct (convert_mesh cid mats mo); cbn [result_material result_mesh length]; by rewrite ?IH.
Qed.

Lemma convert_mesh_material cid mats mo m mat :
  convert_mesh cid mats mo = MeshBuilt m mat -> mats !! xfbin_material mo = Some mat.
Proof.
  unfold exporter.convert_mesh. repeat case_bool_decide; try done.
  destruct (mats !! _); [|done]. by intros [= _ <-].
Qed.

Lemma make_model_well_built path coords mats e chunk :
  (make_model path (index_dict (coord_name <$> coords)) mats e).1 = Some chunk ->
  model_name chunk = empty_name e ∧ well_built path coords mats chunk.
Proof.
  rewrite make_model_unfold. cbv zeta.
  destruct (omap result_mesh _) as [|m ms] eqn:Hms; [done|]. cbn [fst].
  intros [= <-]. split; [done|]. unfold well_built. cbn.
  split_and!; [done | done | | | |].
  - by rewrite results_same_length, Hms.
  - apply Forall_forall. intros mat Hmat.
    apply list_elem_of_omap in Hmat as (r & Hr & Hmat).
    apply list_elem_of_fmap in Hr as (mo & -> & _).
    destruct (convert_mesh _ mats mo) as [|m' mat'] eqn:Hc; [done|].
    injection Hmat as ->. eexists. by eapply convert_mesh_material.
  - rewrite <- Hms. apply Forall_forall. intros m' Hm'.
    apply list_elem_of_omap in Hm' as (r & Hr & Hm').
    apply list_elem_of_fmap in Hr as (mo & -> & _).
    destruct (convert_mesh _ mats mo) as [|m'' mat'] eqn:Hc; [done|].
    injection Hm' as ->.
    apply convert_mesh_built in Hc as (_ & _ & ? & ? & ?). lia.
  - destruct (index_dict (coord_name <$> coords) !! mesh_bone e) as [i|] eqn:Hi; cbn.
    + right. apply index_dict_lookup_Some in Hi as [Hi _].
      apply lookup_lt_Some in Hi. by rewrite length_fmap in Hi.
    + by left.
Qed.

Lemma add_empty_step settings h path coords old mats acc e :
  exists o : option NuccChunkModel,
    (add_empty settings h path (index_dict (coord_name <$> coords)) old mats acc e).1
    = acc.1 ++ option_list o
    ∧ forall chunk, o = Some chunk ->
        model_name chunk = empty_name e
        ∧ (taken_over settings h old chunk ∨ well_built path coords mats chunk).
Proof.
  unfold exporter.add_empty.
  destruct (select_empty settings e) eqn:Hsel.
  - exists None. by rewrite app_nil_r.
  - assert (export_specific_meshes settings = true) as Hspec.
    { unfold select_empty in Hsel. by destruct (export_specific_meshes settings). }
    destruct old as [o|]; [|exists None; by rewrite app_nil_r].
    destruct (old_models_named _ _) as [|old_model rest] eqn:Hold;
      [exists None; by rewrite app_nil_r|].
    exists (Some old_model). split; [done|]. intros chunk [= <-].
    assert (old_model ∈ old_models_named (old_clump_all_models h o) (empty_name e)) as Hin
      by (rewrite Hold; left).
    unfold old_models_named in Hin. apply list_elem_of_filter in Hin as [Hname Hin].
    apply list_elem_of_omap in Hin as (c & Hc & ->).
    split; [done|]. left. split; [done|]. by exists o.
  - destruct (make_model _ _ _ _) as [[chunk|] log] eqn:Hmk; cbn [fst].
    + exists (Some chunk). split; [done|]. intros ? [= <-].
      destruct (make_model_well_built path coords mats e chunk) as [? ?]; [by rewrite Hmk|].
      by split; [|right].
    + exists None. by rewrite app_nil_r.
Qed.

Lemma fold_add_empty_spec settings h path coords old mats es : forall acc,
  exists l,
    (foldl (add_empty settings h path (index_dict (coord_name <$> coords)) old mats) acc es).1
    = acc.1 ++ l
    ∧ model_name <$> l `sublist_of` empty_name <$> es
    ∧ Forall (fun chunk => taken_over settings h old chunk
                           ∨ well_built path coords mats chunk) l.
Proof.
  induction es as [|e es IH]; intros acc; cbn [foldl].
  - exists []. by rewrite app_nil_r.
  - destruct (add_empty_step settings h path coords old mats acc e) as (o & Ho & Hprop).
    destruct (IH (add_empty settings h path (index_dict (coord_name <$> coords)) old mats acc e))
      as (l & Hl & Hsub & Hall).
    exists (option_list o ++ l). rewrite Hl, Ho, <- (assoc_L (++)). split; [done|].
    destruct o as [chunk|]; unfold option_list; cbn [app option_rect].
    + destruct (Hprop chunk eq_refl) as [Hname Hchunk].
      rewrite !fmap_cons, Hname. split; [by apply sublist_skip | by constructor].
    + rewrite fmap_cons. split; [by apply sublist_cons | done].
Qed.

(** The models [make_models] returns stand in the order of their empties, at
    most one for an empty and named like it.  Each is either a model of the
    clump of the file (only when specific meshes are exported), or a model
    built here: then it has the path of the clump, at least one mesh, one
    material chunk of the clump's materials for every mesh, every mesh has
    at least 3 vertices and is within the two limits, and its coord index is
    0 or the index of a coord of the clump. *)
Theorem models_made_are_well_built settings h es path coords old mats :
  let made := (make_models settings h es path coords old mats).1 in
  model_name <$> made `sublist_of` empty_name <$> es
  ∧ Forall (fun chunk => taken_over settings h old chunk
                         ∨ well_built path coords mats chunk) made.
Proof.
  unfold exporter.make_models. cbv zeta.
  destruct (fold_add_empty_spec settings h path coords old mats es ([], []))
    as (l & -> & Hsub & Hall).
  done.
Qed.

End models_made.

(** ** A clump with new lists, and an export into a new file *)

Section new_clump_facts.
Import exporter.
Context (MAX_VERTICES MAX_FACES : nat) {Geom Props : Type} (hex_str_to_int : string -> Z).
Context {Xfbin : Type} (Xfbin_new : Xfbin).
Local Notation state := (exporter.state (Geom:=Geom) (Props:=Props) (Xfbin:=Xfbin)).
Local Notation M := (exporter.M (Geom:=Geom) (Props:=Props) (Xfbin:=Xfbin)).
Local Notation heap := (exporter.heap (Geom:=Geom) (Props:=Props)).
Local Notation NuccChunkClump := (exporter.NuccChunkClump (Props:=Props)).
Context (read_xfbin : string -> Xfbin * heap).
Context (add_chunk_page : Xfbin -> NuccChunkTexture -> Xfbin).
Context (add_clump_page : Xfbin -> NuccChunkClump -> Xfbin).
Context (get_chunk_page : Xfbin -> string -> string -> option (list NuccChunkClump)).
Context (isfile : string -> bool) (read_bytes : string -> list byte).

Local Notation make_clump := (exporter.make_clump MAX_VERTICES MAX_FACES hex_str_to_int get_chunk_page).
Local Notation find_old_clump := (exporter.find_old_clump get_chunk_page).
Local Notation export_texture_chunk := (exporter.export_texture_chunk add_chunk_page isfile read_bytes).
Local Notation export_armature :=
  (exporter.export_armature MAX_VERTICES MAX_FACES hex_str_to_int
     add_chunk_page add_clump_page get_chunk_page isfile read_bytes).
Local Notation run_export :=
  (exporter.run_export MAX_VERTICES MAX_FACES hex_str_to_int Xfbin_new read_xfbin
     add_chunk_page add_clump_page get_chunk_page isfile read_bytes).
Local Notation event := (exporter.event (Props:=Props) (Xfbin:=Xfbin)).

Implicit Types (s : state) (arm : ArmatureObject (Geom:=Geom) (Props:=Props)).

#[local] Existing Instance adds_events_preorder.

(** The material chunks of a clump, lines 271-273:
    [xfbin_mats[mat.material_name] = self.make_xfbin_material(mat, ...)] *)
Definition xfbin_mats_of (path : string) (materials : list (string * Props))
    : gmap string (NuccChunkMaterial (Props:=Props)) :=
  foldl (fun d mat => <[mat.1 := mkMaterial path mat.1 mat.2]> d) ∅ materials.

(** The heap [make_models] reads: the heap before, with the coord list of
    the clump added when bones are exported. *)
Definition heap_with_coords (settings : Settings) arm (clump : NuccChunkClump) (h : heap)
    : heap :=
  if export_bones settings then
    <[coord_chunks clump :=
        CoordList (make_coords (cd_path (xfbin_clump_data arm)) (root_bones arm))]> h
  else h.

(** What [self.make_models(empties, clump, old_clump, xfbin_mats, context)]
    returns in [make_clump]. *)
Definition models_made (settings : Settings) arm (clump : NuccChunkClump)
    (old : option NuccChunkClump) (h : heap) : list NuccChunkModel :=
  let path := cd_path (xfbin_clump_data arm) in
  let h1 := heap_with_coords settings arm clump h in
  (make_models MAX_VERTICES MAX_FACES settings h1 (empties arm) path
     (coords_at h1 (coord_chunks clump)) old
     (xfbin_mats_of path (cd_materials (xfbin_clump_data arm)))).1.

(** The heap after [make_clump] with meshes exported: the model list and the
    group list are two objects added to the heap that [make_models] reads. *)
Lemma make_clump_meshes settings arm s s' clump old :
  export_meshes settings = true ->
  find_old_clump settings (cd_path (xfbin_clump_data arm))
                 (strip_clump_suffix (armature_name arm)) s = (s, Return old) ->
  make_clump settings arm s = (s', Return clump) ->
  let h1 := heap_with_coords settings arm clump (st_heap s) in
  let models := models_made settings arm clump old (st_heap s) in
  let lm := fresh (dom h1) in
  let h2 := <[lm := ModelList (resolve_models (model_dict models)
                                 (cd_models (xfbin_clump_data arm)))]> h1 in
  let lg := fresh (dom h2) in
  dom (st_heap s) ⊆ dom h1
  ∧ st_heap s' = <[lg := GroupList (make_model_groups hex_str_to_int (model_dict models)
                                      (cd_model_groups (xfbin_clump_data arm)))]> h2
  ∧ model_chunks clump = lm ∧ model_groups clump = lg.
Proof.
  intros Hmeshes Hfind Hmk. unfold exporter.make_clump in Hmk. rewrite Hmeshes in Hmk.
  rewrite (bind_Return _ _ _ _ _ Hfind) in Hmk.
  unfold models_made, heap_with_coords, xfbin_mats_of.
  destruct (export_bones settings).
  - unfold bind, get_state, print_all, alloc, ret in Hmk. cbn in Hmk.
    injection Hmk as <- <-. cbn.
    split_and!; [|reflexivity | reflexivity | reflexivity].
    unfold exporter.heap, loc in *. rewrite dom_insert. apply union_subseteq_r.
  - destruct old as [o|].
    + unfold bind, get_state, print_all, alloc, ret in Hmk. cbn in Hmk.
      injection Hmk as <- <-. cbn. done.
    + by rewrite (bind_Raise _ _ s s "Cannot export bones.") in Hmk.
Qed.

(** When meshes are exported, the model list of the clump is a new list
    object, and so is its group list (they are not shared with each other
    nor with an object that was there before).  With [models] the list that
    [make_models] returns for the armature, the model list holds, for every
    name of the clump data's models that is the name of one of [models],
    the last of them with that name, in the order of the clump data and not
    of the empties; a name without a model is left out, so the list holds no
    [None], and a model whose name the clump data does not list is not in
    it.  There is one group for every group of the clump data. *)
Theorem exported_model_list settings arm s s' clump old :
  export_meshes settings = true ->
  find_old_clump settings (cd_path (xfbin_clump_data arm))
                 (strip_clump_suffix (armature_name arm)) s = (s, Return old) ->
  make_clump settings arm s = (s', Return clump) ->
  let models := models_made settings arm clump old (st_heap s) in
  models_at (st_heap s') (model_chunks clump)
  = omap (fun c => Some <$> last (filter (fun m => model_name m = c) models))
         (cd_models (xfbin_clump_data arm))
  ∧ Forall is_Some (models_at (st_heap s') (model_chunks clump))
  ∧ (forall m, Some m ∈ models_at (st_heap s') (model_chunks clump) ->
       m ∈ models ∧ model_name m ∈ cd_models (xfbin_clump_data arm))
  ∧ length (groups_at (st_heap s') (model_groups clump))
    = length (cd_model_groups (xfbin_clump_data arm))
  ∧ st_heap s !! model_chunks clump = None
  ∧ st_heap s !! model_groups clump = None
  ∧ model_chunks clump ≠ model_groups clump.
Proof.
  intros Hmeshes Hfind Hmk.
  destruct (make_clump_meshes settings arm s s' clump old Hmeshes Hfind Hmk)
    as (Hdom & Hheap & Hlm & Hlg).
  cbv zeta in *.
  set (models := models_made settings arm clump old (st_heap s)) in *.
  set (h1 := heap_with_coords settings arm clump (st_heap s)) in *.
  set (lm := fresh (dom h1)) in *.
  set (h2 := <[lm := _]> h1) in *.
  set (lg := fresh (dom h2)) in *.
  assert (lm ∉ dom h1) as Hfresh1 by apply is_fresh.
  assert (lg ∉ dom h2) as Hfresh2 by apply is_fresh.
  assert (dom h1 ⊆ dom h2) as Hdom2.
  { subst h2. unfold exporter.heap, loc in *. rewrite dom_insert. apply union_subseteq_r. }
  assert (lm ∈ dom h2) as Hlm2.
  { subst h2. unfold exporter.heap, loc in *. rewrite dom_insert.
    apply elem_of_union_l. by apply elem_of_singleton. }
  assert (lm ≠ lg) as Hne by (intros Heq; apply Hfresh2; by rewrite <- Heq).
  assert (models_at (st_heap s') (model_chunks clump)
          = omap (fun c => Some <$> last (filter (fun m => model_name m = c) models))
                 (cd_models (xfbin_clump_data arm))) as Hlist.
  { unfold models_at. rewrite Hheap, Hlm. unfold exporter.heap, loc in *.
    rewrite lookup_insert_ne by done. subst h2. rewrite lookup_insert_eq.
    unfold resolve_models. apply list_omap_ext. apply Forall2_same_length_lookup_2; [done|].
    intros i x y Hx Hy. rewrite Hx in Hy. injection Hy as <-. apply model_dict_lookup. }
  split_and!.
  - exact Hlist.
  - rewrite Hlist. apply Forall_forall. intros x Hx.
    apply list_elem_of_omap in Hx as (c & _ & Hc).
    destruct (last _); [|done]. injection Hc as <-. done.
  - intros m Hm. rewrite Hlist in Hm.
    apply list_elem_of_omap in Hm as (c & Hc & Hlast).
    destruct (last _) as [m'|] eqn:Hl; [|done]. injection Hlast as ->.
    apply last_Some in Hl as (l' & Hl).
    assert (m ∈ filter (fun m0 => model_name m0 = c) models) as Hin
      by (rewrite Hl; apply elem_of_app; right; by apply list_elem_of_singleton).
    apply list_elem_of_filter in Hin as [Hname Hin]. split; [done|]. by rewrite Hname.
  - unfold groups_at. rewrite Hheap, Hlg. unfold exporter.heap, loc in *.
    rewrite lookup_insert_eq. unfold make_model_groups. by rewrite length_fmap.
  - rewrite Hlm. unfold exporter.heap, loc in *.
    apply not_elem_of_dom. intros Hin. apply Hfresh1. by apply Hdom.
  - rewrite Hlg. unfold exporter.heap, loc in *.
    apply not_elem_of_dom. intros Hin. apply Hfresh2. by apply Hdom2, Hdom.
  - by rewrite Hlm, Hlg.
Qed.

(** The clumps added to the container, in the order of the events. *)
Definition clump_pages (evs : list event) : list NuccChunkClump :=
  omap (fun e => match e with AddClumpPage clump => Some clump | _ => None end) evs.

Definition no_clump_page (e : event) : Prop :=
  match e with AddClumpPage _ => False | _ => True end.

Lemma clump_pages_none (evs : list event) :
  Forall no_clump_page evs -> clump_pages evs = [].
Proof.
  induction 1 as [|e evs He _ IH]; [done|].
  unfold clump_pages in *. cbn [omap list_omap]. by destruct e.
Qed.

Lemma make_clump_returns settings arm s :
  inject_to_xfbin settings = false ->
  export_bones settings = true -> export_meshes settings = true ->
  exists s' clump,
    make_clump settings arm s = (s', Return clump)
    ∧ clump_path clump = cd_path (xfbin_clump_data arm)
    ∧ clump_name clump = strip_clump_suffix (armature_name arm).
Proof.
  intros Hinject Hbones Hmeshes. unfold exporter.make_clump.
  rewrite (bind_Return _ _ _ _ _
             (find_old_clump_missing get_chunk_page settings _ _ s (or_introl Hinject))).
  rewrite Hbones, Hmeshes. unfold bind, get_state, print_all, alloc, ret. cbn.
  by eexists _, _.
Qed.

Lemma export_armature_returns settings arm s :
  inject_to_xfbin settings = false ->
  export_bones settings = true -> export_meshes settings = true ->
  exists s' clump,
    export_armature settings arm s = (s', Return tt)
    ∧ clump_pages (events s') = clump_pages (events s) ++ [clump]
    ∧ clump_path clump = cd_path (xfbin_clump_data arm)
    ∧ clump_name clump = strip_clump_suffix (armature_name arm).
Proof.
  intros Hinject Hbones Hmeshes. unfold exporter.export_armature.
  pose proof (export_textures_return add_chunk_page isfile read_bytes
                (cd_texture_chunks (xfbin_clump_data arm)) s) as Hret.
  pose proof (preserves_for_each (adds_events no_clump_page)
                (cd_texture_chunks (xfbin_clump_data arm)) export_texture_chunk
                (fun tc => export_texture_chunk_adds_events add_chunk_page isfile read_bytes
                             no_clump_page tc (fun _ => I) (fun _ _ => I)) s)
    as (evs1 & Hev1 & Hall1).
  destruct (for_each _ export_texture_chunk s) as [s1 r] eqn:Hfe. cbn in Hret, Hev1. subst r.
  rewrite (bind_Return _ _ _ _ _ Hfe).
  destruct (make_clump_returns settings arm s1 Hinject Hbones Hmeshes)
    as (s2 & clump & Hmk & Hpath & Hname).
  pose proof (make_clump_adds_events MAX_VERTICES MAX_FACES hex_str_to_int get_chunk_page
                no_clump_page settings arm (fun _ => I) s1) as (evs2 & Hev2 & Hall2).
  rewrite Hmk in Hev2. cbn in Hev2.
  rewrite (bind_Return _ _ _ _ _ Hmk).
  unfold bind, get_state, set_xfbin, emit. cbn.
  eexists _, clump. split; [reflexivity|]. cbn. split; [|done].
  rewrite Hev2, Hev1. unfold clump_pages. rewrite !omap_app.
  fold (clump_pages evs1). fold (clump_pages evs2).
  rewrite (clump_pages_none evs1 Hall1), (clump_pages_none evs2 Hall2).
  by rewrite !app_nil_r.
Qed.

Lemma export_armatures_return settings armatures :
  inject_to_xfbin settings = false ->
  export_bones settings = true -> export_meshes settings = true ->
  forall s, exists s',
    for_each armatures (export_armature settings) s = (s', Return tt)
    ∧ clump_path <$> clump_pages (events s')
      = (clump_path <$> clump_pages (events s))
        ++ ((fun arm => cd_path (xfbin_clump_data arm)) <$> armatures)
    ∧ clump_name <$> clump_pages (events s')
      = (clump_name <$> clump_pages (events s))
        ++ ((fun arm => strip_clump_suffix (armature_name arm)) <$> armatures).
Proof.
  intros Hinject Hbones Hmeshes.
  induction armatures as [|arm armatures IH]; intros s.
  - exists s. by rewrite !app_nil_r.
  - destruct (export_armature_returns settings arm s Hinject Hbones Hmeshes)
      as (s1 & clump & Hex & Hpages & Hpath & Hname).
    destruct (IH s1) as (s2 & Hfe & Hpaths & Hnames).
    exists s2. cbn [for_each]. rewrite (bind_Return _ _ _ _ _ Hex).
    split; [done|]. rewrite Hpaths, Hnames, Hpages, !fmap_app, !fmap_cons, Hpath, Hname.
    by rewrite <- !(assoc_L (++)).
Qed.

(** An export that does not inject into a file never raises, whatever the
    three export flags say (they are all set): it adds one clump for every
    armature, in the order of the armatures, with the path the armature
    gives and the armature's name without [' [C]'], and it ends with the one
    write of the container. *)
Theorem export_to_new_file_returns filepath settings armatures :
  inject_to_xfbin settings = false ->
  exists s,
    run_export filepath settings armatures = (s, Return tt)
    ∧ last (events s) = Some (WriteXfbin (xfbin s) filepath)
    ∧ clump_path <$> clump_pages (events s)
      = (fun arm => cd_path (xfbin_clump_data arm)) <$> armatures
    ∧ clump_name <$> clump_pages (events s)
      = (fun arm => strip_clump_suffix (armature_name arm)) <$> armatures.
Proof.
  intros Hinject. unfold exporter.run_export, exporter.export_collection.
  rewrite Hinject. unfold bind at 1. unfold ret at 1.
  set (settings' := mkSettings false true true true _ _).
  destruct (export_armatures_return settings' armatures eq_refl eq_refl eq_refl
              (mkState Xfbin_new ∅ [])) as (s1 & Hfe & Hpaths & Hnames).
  rewrite (bind_Return _ _ _ _ _ Hfe). unfold bind, get_state, emit. cbn.
  eexists. split; [reflexivity|]. cbn. split_and!.
  - by rewrite last_snoc.
  - unfold clump_pages in *. rewrite omap_app. cbn. by rewrite app_nil_r.
  - unfold clump_pages in *. rewrite omap_app. cbn. by rewrite app_nil_r.
Qed.

End new_clump_facts.

(** On a sample: the clump data lists ["ghost"] and ["body"], only ["body"]
    is an empty, and the model list of the clump is a new object that holds
    the one model made. *)
Lemma exported_model_list_sample :
  exists s' clump,
    exporter.make_clump 10 10 (fun _ => 0%Z) (fun _ _ _ => None)
      samples.all_meshes samples.body_armature samples.start
    = (s', exporter.Return clump)
    ∧ let models := models_made 10 10 samples.all_meshes samples.body_armature clump None
                      (exporter.st_heap samples.start) in
      exporter.model_name <$> models = ["body"%string]
      ∧ exporter.models_at (exporter.st_heap s') (exporter.model_chunks clump)
        = omap (fun c => Some <$> last (filter (fun m => exporter.model_name m = c) models))
               (exporter.cd_models (exporter.xfbin_clump_data samples.body_armature))
      ∧ Forall is_Some (exporter.models_at (exporter.st_heap s') (exporter.model_chunks clump))
      ∧ (forall m, Some m ∈ exporter.models_at (exporter.st_heap s') (exporter.model_chunks clump) ->
           m ∈ models
           ∧ exporter.model_name m
               ∈ exporter.cd_models (exporter.xfbin_clump_data samples.body_armature))
      ∧ length (exporter.groups_at (exporter.st_heap s') (exporter.model_groups clump))
        = length (exporter.cd_model_groups (exporter.xfbin_clump_data samples.body_armature))
      ∧ exporter.st_heap samples.start !! exporter.model_chunks clump = None
      ∧ exporter.st_heap samples.start !! exporter.model_groups clump = None
      ∧ exporter.model_chunks clump ≠ exporter.model_groups clump.
Proof.
  eexists _, _. split; [vm_compute; reflexivity|].
  split; [vm_compute; reflexivity|].
  apply (exported_model_list 10 10 (fun _ => 0%Z) (fun _ _ _ => None)
           samples.all_meshes samples.body_armature samples.start _ _ None);
    [reflexivity | reflexivity | vm_compute; reflexivity].
Defined.

(** On a sample: two armatures into a new file, with the three flags off. *)
Lemma export_to_new_file_sample :
  exists s,
    exporter.run_export 10 10 (fun _ => 0%Z) tt (fun _ => (tt, ∅)) (fun x _ => x) (fun x _ => x)
      (fun _ _ _ => None) (fun _ => false) (fun _ => [])
      "models.xfbin" samples.new_file [samples.body_armature; samples.armature "Bar"]
    = (s, exporter.Return tt)
    ∧ last (exporter.events s) = Some (exporter.WriteXfbin (exporter.xfbin s) "models.xfbin")
    ∧ exporter.clump_path <$> clump_pages (exporter.events s) = ["clump"; "clump"]%string
    ∧ exporter.clump_name <$> clump_pages (exporter.events s) = ["Foo"; "Bar"]%string.
Proof.
  apply (export_to_new_file_returns 10 10 (fun _ => 0%Z) tt (fun _ => (tt, ∅))
           (fun x _ => x) (fun x _ => x) (fun _ _ _ => None) (fun _ => false) (fun _ => [])
           "models.xfbin" samples.new_file [samples.body_armature; samples.armature "Bar"]).
  reflexivity.
Defined.

(** ** Nothing is left out without a message *)

Section reported_facts.
Import exporter.
Context (MAX_VERTICES MAX_FACES : nat) {Geom Props : Type}.
Implicit Types (e : Empty (Geom:=Geom) (Props:=Props)).
Implicit Types (mo : MeshObject (Geom:=Geom) (Props:=Props)).
Implicit Types (mos : list (MeshObject (Geom:=Geom) (Props:=Props))).
Implicit Types (cid : gmap string nat).
Implicit Types (mats : gmap string (NuccChunkMaterial (Props:=Props))).

Local Notation convert_mesh := (exporter.convert_mesh MAX_VERTICES MAX_FACES).
Local Notation make_model := (exporter.make_model MAX_VERTICES MAX_FACES).

(** The object a message is about. *)
Definition subject (d : diagnostic) : string :=
  match d with
  | NutNotValid n | MeshNoValidFaces n | MeshTooManyVertices n _ _
  | MeshTooManyFaces n _ _ | MeshNoMaterial n | NudNoMeshes n => n
  end.

Lemma convert_mesh_subject cid mats mo d :
  convert_mesh cid mats mo = MeshSkipped d -> subject d = mesh_name mo.
Proof.
  unfold exporter.convert_mesh. repeat case_bool_decide; try by intros [= <-].
  destruct (mats !! _); [done | by intros [= <-]].
Qed.

Lemma results_split cid mats mos :
  length mos
  = length (omap result_mesh (convert_mesh cid mats <$> mos))
    + length (omap result_diagnostic (convert_mesh cid mats <$> mos)).
Proof.
  induction mos as [|mo mos IH]; [done|]. rewrite fmap_cons. cbn [omap list_omap length].
  destruct (convert_mesh cid mats mo); cbn [result_mesh result_diagnostic length]; lia.
Qed.

(** Every mesh object of an empty that is exported is either in the model,
    with its material chunk, or there is a message about it: a mesh object
    is not left out silently.  A model that is made has as many meshes as
    mesh objects were not reported, and an empty without a model gets one
    message more, about the empty. *)
Theorem every_mesh_is_exported_or_reported path cid mats e :
  let out := make_model path cid mats e in
  Forall (fun mo =>
            match convert_mesh cid mats mo with
            | MeshBuilt m mat =>
                exists chunk, out.1 = Some chunk
                              ∧ m ∈ nud_meshes chunk ∧ mat ∈ material_chunks chunk
            | MeshSkipped d => d ∈ out.2 ∧ subject d = mesh_name mo
            end) (empty_meshes e)
  ∧ match out.1 with
    | Some chunk => length (empty_meshes e) = length (nud_meshes chunk) + length out.2
    | None => length out.2 = length (empty_meshes e) + 1
              ∧ last out.2 = Some (NudNoMeshes (empty_name e))
    end.
Proof.
  cbv zeta. rewrite make_model_unfold. cbv zeta.
  pose proof (results_split cid mats (empty_meshes e)) as Hsplit.
  set (rs := convert_mesh cid mats <$> empty_meshes e) in *.
  assert (forall mo m mat, mo ∈ empty_meshes e -> convert_mesh cid mats mo = MeshBuilt m mat ->
            m ∈ omap result_mesh rs ∧ mat ∈ omap result_material rs) as Hbuilt.
  { intros mo m mat Hmo Hc. split; apply list_elem_of_omap; exists (MeshBuilt m mat);
      (split; [|done]); subst rs; rewrite <- Hc; by apply list_elem_of_fmap_2. }
  assert (forall mo d, mo ∈ empty_meshes e -> convert_mesh cid mats mo = MeshSkipped d ->
            d ∈ omap result_diagnostic rs) as Hskipped.
  { intros mo d Hmo Hc. apply list_elem_of_omap. exists (MeshSkipped d).
    split; [|done]. subst rs. rewrite <- Hc. by apply list_elem_of_fmap_2. }
  destruct (omap result_mesh rs) as [|m0 ms] eqn:Hms; cbn [fst snd].
  - split.
    + apply Forall_forall. intros mo Hmo.
      destruct (convert_mesh cid mats mo) as [d|m mat] eqn:Hc.
      * split; [|by eapply convert_mesh_subject].
        apply elem_of_app. left. by eapply Hskipped.
      * destruct (Hbuilt mo m mat Hmo Hc) as [Hm _]. by apply elem_of_nil in Hm.
    + rewrite length_app, last_snoc. cbn [length] in *. split; [lia | done].
  - split.
    + apply Forall_forall. intros mo Hmo.
      destruct (convert_mesh cid mats mo) as [d|m mat] eqn:Hc.
      * split; [by eapply Hskipped | by eapply convert_mesh_subject].
      * destruct (Hbuilt mo m mat Hmo Hc) as [Hm Hmat]. eexists. split; [done|]. by cbn.
    + cbn [nud_meshes]. exact Hsplit.
Qed.

End reported_facts.
